(** * gx-go: import-path rewriting, version comparison and path resolution

    The core of [main.go] (package [main] of gx-go) as Rocq functions, and
    the properties of its rewrite table, lookup function, version
    comparison and import-path resolution.

    Go strings are byte sequences: they are modelled by [string] (a list of
    8-bit [ascii]).  Go maps are modelled by [gmap string string]; the order
    in which [range] visits a map is left open by the language, so it is an
    explicit argument wherever the code ranges over a map. *)

From Stdlib Require Import ZArith Ascii String Lia.
From stdpp Require Import gmap strings list sorting.

Local Open Scope Z_scope.

(** ** The parts of the Go standard library that [main.go] calls *)

Module GoStrings.

(** [len(s)] *)
Definition len (s : string) : nat := String.length s.

(** [strings.HasPrefix(s, prefix)] *)
Fixpoint HasPrefix (s prefix : string) {struct prefix} : bool :=
  match prefix, s with
  | EmptyString, _ => true
  | String _ _, EmptyString => false
  | String a prefix', String b s' =>
      if Ascii.eqb a b then HasPrefix s' prefix' else false
  end.

(** [s[n:]]; the slice expression panics when [n > len(s)], every use in
    [main.go] is guarded by [HasPrefix], see [HasPrefix_len]. *)
Fixpoint slice_from (s : string) (n : nat) {struct n} : string :=
  match n, s with
  | O, _ => s
  | S _, EmptyString => EmptyString
  | S n', String _ s' => slice_from s' n'
  end.

(** [strings.Replace(s, old, new, 1)]: the leftmost occurrence of [old]
    in [s] is replaced by [new]; an empty [old] matches at the start. *)
Fixpoint Replace1 (s old new : string) : string :=
  if HasPrefix s old then new +:+ slice_from s (len old)
  else match s with
       | EmptyString => EmptyString
       | String c s' => String c (Replace1 s' old new)
       end.

(** [strings.Split(s, sep)] for a one-byte separator: always at least
    one component, [Split("", ".")] is [[""]]. *)
Fixpoint Split (s : string) (sep : ascii) : list string :=
  match s with
  | EmptyString => [EmptyString]
  | String c s' =>
      if Ascii.eqb c sep then EmptyString :: Split s' sep
      else match Split s' sep with
           | [] => [String c EmptyString]
           | w :: ws => String c w :: ws
           end
  end.

(** [strings.Join(elems, sep)] *)
Fixpoint Join (elems : list string) (sep : string) : string :=
  match elems with
  | [] => EmptyString
  | [e] => e
  | e :: rest => e +:+ sep +:+ Join rest sep
  end.

End GoStrings.

Module Strconv.

(** [*strconv.NumError]: only the kind of failure is kept. *)
Inductive NumError : Type := ErrSyntax | ErrRange.

Definition digit (c : ascii) : option Z :=
  let n := Z.of_N (N_of_ascii c) in
  if (48 <=? n) && (n <=? 57) then Some (n - 48) else None.

Definition maxUint64 : Z := 2 ^ 64 - 1.
Definition maxInt : Z := 2 ^ 63 - 1.
Definition minInt : Z := - 2 ^ 63.

(** The digit loop of [ParseUint(s, 10, 64)]: a byte that is no decimal
    digit is a syntax error, leaving the range of [uint64] a range
    error, whichever comes first from the left. *)
Fixpoint digits (acc : Z) (s : string) : Z + NumError :=
  match s with
  | EmptyString => inl acc
  | String c s' =>
      match digit c with
      | None => inr ErrSyntax
      | Some d =>
          let acc' := acc * 10 + d in
          if maxUint64 <? acc' then inr ErrRange else digits acc' s'
      end
  end.

(** [strconv.Atoi(s)] on a 64-bit platform: an optional sign, then at
    least one decimal digit, the value within the range of [int]. *)
Definition Atoi (s : string) : Z + NumError :=
  match s with
  | EmptyString => inr ErrSyntax
  | String c s' =>
      let neg := Ascii.eqb c "-" in
      let body := if neg || Ascii.eqb c "+" then s' else s in
      match body with
      | EmptyString => inr ErrSyntax
      | _ =>
          match digits 0 body with
          | inr e => inr e
          | inl un =>
              if neg then
                if 2 ^ 63 <? un then inr ErrRange else inl (- un)
              else
                if maxInt <? un then inr ErrRange else inl un
          end
      end
  end.

End Strconv.

Module GoPath.
Import GoStrings.

Definition dotdot : string := "..".

(** The element stack of [path.Clean]: [stack] holds the kept elements,
    last one first.  A [..] removes the element before it, is kept at
    the start of a relative path and dropped at the root. *)
Fixpoint clean_elems (rooted : bool) (stack : list string)
         (elems : list string) : list string :=
  match elems with
  | [] => rev stack
  | e :: rest =>
      if bool_decide (e = EmptyString) || bool_decide (e = ".") then
        clean_elems rooted stack rest
      else if bool_decide (e = dotdot) then
        match stack with
        | top :: below =>
            if bool_decide (top = dotdot)
            then clean_elems rooted (dotdot :: stack) rest
            else clean_elems rooted below rest
        | [] =>
            if rooted then clean_elems rooted [] rest
            else clean_elems rooted [dotdot] rest
        end
      else clean_elems rooted (e :: stack) rest
  end.

(** [path.Clean(p)] (and [filepath.Clean] on Unix) *)
Definition Clean (p : string) : string :=
  match p with
  | EmptyString => "."
  | String c _ =>
      let rooted := Ascii.eqb c "/" in
      let body := Join (clean_elems rooted [] (Split p "/")) "/" in
      if rooted then "/" +:+ body
      else if bool_decide (body = EmptyString) then "." else body
  end.

(** [path.Join(elem...)] (and [filepath.Join] on Unix): empty elements
    are ignored, the rest is joined by slashes and cleaned; the result
    is empty when every element is. *)
Definition Join (elem : list string) : string :=
  match filter (fun e => e <> EmptyString) elem with
  | [] => EmptyString
  | es => Clean (GoStrings.Join es "/")
  end.

End GoPath.

(** ** The version comparison: [versionComp] *)

(** [min] *)
Definition min (a b : nat) : nat := if (a <? b)%nat then a else b.

(** The body of [for i, v := range hp]: [None] stands for the panic of an
    index [rp[i]] out of range. *)
Fixpoint versionComp_range (rp : list string) (i : nat) (hp : list string)
  : option (bool * option Strconv.NumError) :=
  match hp with
  | [] => Some (false, None)
  | v :: hp' =>
      match Strconv.Atoi v with
      | inr err => Some (false, Some err)
      | inl hv =>
          match rp !! i with
          | None => None
          | Some r =>
              match Strconv.Atoi r with
              | inr err => Some (false, Some err)
              | inl rv =>
                  if hv <? rv then Some (true, None)
                  else if hv >? rv then Some (false, None)
                  else versionComp_range rp (S i) hp'
              end
          end
      end
  end.

Definition versionComp (have req : string)
  : option (bool * option Strconv.NumError) :=
  let hp := GoStrings.Split have "." in
  let rp := GoStrings.Split req "." in
  let l := min (length hp) (length rp) in
  let hp := take l hp in
  let rp := take l rp in
  versionComp_range rp 0 hp.

(** ** Data model *)

(** [gx.Dependency]: the fields [main.go] reads. *)
Module Dependency.
Record t : Type := mk { Name : string; Hash : string }.
End Dependency.

(** [GoInfo], the Go-specific block of a package descriptor. *)
Module GoInfo.
Record t : Type := mk { DvcsImport : string; GoVersion : string }.
End GoInfo.

(** [Package]: of the embedded [gx.PackageBase] only [Name] and
    [Dependencies] are read by the functions below. *)
Module Package.
Record t : Type := mk {
  Name : string;
  Dependencies : list Dependency.t;
  Gx : GoInfo.t
}.

(** [var pkg Package]: the zero value. *)
Definition zero : t := mk EmptyString [] (GoInfo.mk EmptyString EmptyString).
End Package.

(** Go [error] values.  [errorString] carries the text of an error made
    by [fmt.Errorf] from [%s] verbs only (or returned by gx);
    [loadingDepError] is the value of
    [fmt.Errorf("loading dep %q of %q: %s", dep.Name, pkg.Name, err)]. *)
Inductive error : Type :=
| errorString (msg : string)
| loadingDepError (dep pkg : string) (err : error).

(** One call of stump's [Log] or [VLog]: the format and its arguments. *)
Record logline : Type := Logline { format : string; args : list string }.

(** The process environment read by [main.go]: the [GOPATH] variable, the
    package variable [cwd] and stump's [Verbose] flag. *)
Record Env : Type := mkEnv { GOPATH : string; cwd : string; Verbose : bool }.

(** The state shared by the builders: the map [m] they are handed (a Go
    map is a reference, every recursive call writes to the same table)
    and the lines logged so far. *)
Record state : Type := mkState {
  tbl : gmap string string;
  logged : list logline
}.

(** Stateful computations; [None] when the recursion depth is used up. *)
Definition act (A : Type) : Type := state -> option (A * state).

Definition diverge {A} : act A := fun _ => None.

Definition ret {A} (a : A) : act A := fun s => Some (a, s).

#[global] Instance act_ret : MRet act := @ret.

#[global] Instance act_bind : MBind act := fun A B k c s =>
  match c s with
  | None => None
  | Some (a, s') => k a s'
  end.

(** [Log(format, args...)] *)
Definition Log (fmt : string) (a : list string) : act unit :=
  fun s => Some (tt, mkState (tbl s) (logged s ++ [Logline fmt a])).

(** [e, ok := m[k]] *)
Definition map_get (k : string) : act (option string) :=
  fun s => Some (tbl s !! k, s).

(** [m[k] = v] *)
Definition map_set (k v : string) : act unit :=
  fun s => Some (tt, mkState (<[k := v]> (tbl s)) (logged s)).

(** [for _, dep := range deps { body }]: the body yields [Some err] where
    the code returns [err] from inside the loop and [None] where it goes
    on with the next element (also by [continue]). *)
Fixpoint range_deps (body : Dependency.t -> act (option error))
         (deps : list Dependency.t) : act (option error) :=
  match deps with
  | [] => ret None
  | dep :: rest =>
      r ← body dep;
      match r with
      | Some err => ret (Some err)
      | None => range_deps body rest
      end
  end.

(** [vendorDir = filepath.Join("vendor", "gx", "ipfs")] *)
Definition vendorDir : string := GoPath.Join ["vendor"; "gx"; "ipfs"].

Section Program.

Variable env : Env.

(** [gx.FindPackageInDir(&pkg, dir)], the lookup of the external package
    manager.  It decodes the descriptor found under [dir] into the struct
    it is handed: [FindPackageInDir pkg dir] is what the struct holds
    after the call, when it held [pkg] before, and the text of the error
    returned, if any.  A lookup that fails can leave the struct partly
    filled, and one that succeeds leaves the fields the descriptor does
    not mention as they were.  The directory tree is taken not to change
    during a run. *)
Variable FindPackageInDir : Package.t -> string -> Package.t * option string.

(** [VLog(format, args...)]: logs only when [Verbose] is set. *)
Definition VLog (fmt : string) (a : list string) : act unit :=
  if Verbose env then Log fmt a else ret tt.

(** [getGoPath]: the first entry of [GOPATH]. *)
Definition getGoPath : string * option error :=
  let gp := GOPATH env in
  if bool_decide (gp = EmptyString)
  then (EmptyString, Some (errorString "GOPATH not set"))
  else (default EmptyString (head (GoStrings.Split gp ":")), None).

(** ** The Path Resolver *)

Definition getImportPath (pkgpath : string) : string * option error :=
  let '(gopath, err) := getGoPath in
  match err with
  | Some _ =>
      (EmptyString,
       Some (errorString "GOPATH not set, cannot derive import path"))
  | None =>
      let srcdir := GoPath.Join [gopath; "src"] in
      let srcdir := srcdir +:+ "/" in
      if negb (GoStrings.HasPrefix (cwd env) srcdir)
      then (EmptyString, Some (errorString "package not within GOPATH/src"))
      else
        let rel := GoStrings.slice_from (cwd env) (GoStrings.len srcdir) in
        (rel, None)
  end.

Definition packagesGoImport (p : string) : string * option error :=
  let '(gopath, err) := getGoPath in
  match err with
  | Some e => (EmptyString, Some e)
  | None =>
      let srcdir := GoPath.Join [gopath; "src"] in
      let srcdir := srcdir +:+ "/" in
      if negb (GoStrings.HasPrefix p srcdir)
      then (EmptyString, Some (errorString "package not within GOPATH/src"))
      else (GoStrings.slice_from p (GoStrings.len srcdir), None)
  end.

(** ** The Dependency Loader *)

Definition globalPath : string :=
  let '(gp, _) := getGoPath in
  GoPath.Join [gp; "src"; "gx"; "ipfs"].

(** [loadDep]: [inl] for a loaded package, [inr] for [(nil, err)].  Both
    lookups decode into the one variable [cpkg]: the second one starts
    from what the first one left in it. *)
Definition loadDep (dep : Dependency.t) (pkgdir : string)
  : act (Package.t + error) :=
  let cpkg := Package.zero in
  let pdir := GoPath.Join [pkgdir; Dependency.Hash dep] in
  VLog "  - fetching dep: %s (%s)"
       [Dependency.Name dep; Dependency.Hash dep];;
  let '(cpkg, err) := FindPackageInDir cpkg pdir in
  match err with
  | Some _ =>
      let p := GoPath.Join [globalPath; Dependency.Hash dep] in
      VLog "  - checking in global namespace (%s)" [p];;
      let '(cpkg, gerr) := FindPackageInDir cpkg p in
      match gerr with
      | Some gerr =>
          ret (inr (errorString ("failed to find package: " +:+ gerr)))
      | None => ret (inl cpkg)
      end
  | None => ret (inl cpkg)
  end.

(** ** The Rewrite Table Builder *)

Definition addRewriteForDep (dep : Dependency.t) (pkg : Package.t)
           (undo : bool) : act unit :=
  if negb (bool_decide (GoInfo.DvcsImport (Package.Gx pkg) = EmptyString))
  then
    let from := GoInfo.DvcsImport (Package.Gx pkg) in
    let to := "gx/ipfs/" +:+ Dependency.Hash dep +:+ "/" +:+ Package.Name pkg in
    let '(from, to) := if undo then (to, from) else (from, to) in
    map_set from to
  else ret tt.

(** The body of the loop of [buildRewriteMapping] for one dependency
    edge; [recur cpkg] is the recursive call on the loaded child. *)
Definition buildRewriteMapping_edge (recur : Package.t -> act (option error))
           (pkg : Package.t) (pkgdir : string) (undo : bool)
           (dep : Dependency.t) : act (option error) :=
  r ← loadDep dep pkgdir;
  match r with
  | inr err =>
      ret (Some (loadingDepError (Dependency.Name dep) (Package.Name pkg) err))
  | inl cpkg =>
      addRewriteForDep dep cpkg undo;;
      recur cpkg
  end.

(** [buildRewriteMapping]; [depth] bounds the nesting of the recursive
    calls (the code recurses as deep as the dependency graph goes). *)
Fixpoint buildRewriteMapping (depth : nat) (pkg : Package.t)
         (pkgdir : string) (undo : bool) : act (option error) :=
  match depth with
  | O => diverge
  | S depth' =>
      range_deps
        (buildRewriteMapping_edge
           (fun cpkg => buildRewriteMapping depth' cpkg pkgdir undo)
           pkg pkgdir undo)
        (Package.Dependencies pkg)
  end.

(** The body of the loop of [buildMap] for one dependency edge. *)
Definition buildMap_edge (recur : Package.t -> act (option error))
           (dep : Dependency.t) : act (option error) :=
  let ch := Package.zero in
  let '(ch, err) :=
    FindPackageInDir ch (GoPath.Join [vendorDir; Dependency.Hash dep]) in
  match err with
  | Some err => ret (Some (errorString err))
  | None =>
      let imp := GoInfo.DvcsImport (Package.Gx ch) in
      if negb (bool_decide (imp = EmptyString)) then
        e ← map_get imp;
        match e with
        | Some e =>
            (if negb (bool_decide (e = Dependency.Hash dep)) then
               Log "have two dep packages with same import path: " [imp];;
               Log "  - " [e];;
               Log "  - " [Dependency.Hash dep]
             else ret tt);;
            ret None
        | None =>
            map_set imp (Dependency.Hash dep);;
            recur ch
        end
      else recur ch
  end.

(** [buildMap], the builder of the dependency map of [dep-map]. *)
Fixpoint buildMap (depth : nat) (pkg : Package.t) : act (option error) :=
  match depth with
  | O => diverge
  | S depth' =>
      range_deps (buildMap_edge (buildMap depth'))
                 (Package.Dependencies pkg)
  end.

End Program.

(** The loop of [buildRewriteMapping] on [pkg] over the edges [deps], the
    recursive calls nested [depth] deep:
    [buildRewriteMapping (S depth) pkg] is this loop over all of
    [pkg.Dependencies]. *)
Definition buildRewriteMapping_loop (env : Env)
           (FindPackageInDir : Package.t -> string -> Package.t * option string)
           (depth : nat) (pkg : Package.t) (pkgdir : string) (undo : bool)
           (deps : list Dependency.t) : act (option error) :=
  range_deps
    (buildRewriteMapping_edge env FindPackageInDir
       (fun cpkg => buildRewriteMapping env FindPackageInDir depth cpkg pkgdir undo)
       pkg pkgdir undo)
    deps.

(** ** The Rewrite Applier: the lookup function of [doRewrite] *)

(** [for k, v := range mapping { ... }] of the closure [rwm], over the
    entries in the order the runtime yields them: the rewritten path of
    the first entry whose key, followed by a slash, starts [in_]. *)
Fixpoint rwm_range (in_ : string) (entries : list (string * string))
  : option string :=
  match entries with
  | [] => None
  | (k, v) :: rest =>
      if GoStrings.HasPrefix in_ (k +:+ "/")
      then Some (GoStrings.Replace1 in_ k v)
      else rwm_range in_ rest
  end.

(** The closure [rwm] of [doRewrite]: the result and the map afterwards.
    [order] is the order in which [range] visits the entries of [mapping]
    in this call, a permutation of [map_to_list mapping]. *)
Definition rwm (order : list (string * string))
           (mapping : gmap string string) (in_ : string)
  : string * gmap string string :=
  match mapping !! in_ with
  | Some m => (m, mapping)
  | None =>
      match rwm_range in_ order with
      | Some nmapping => (nmapping, <[in_ := nmapping]> mapping)
      | None => (in_, <[in_ := in_]> mapping)
      end
  end.

(** The map after a run of lookups, each with its own visiting order. *)
Definition rwm_all (queries : list (list (string * string) * string))
           (mapping : gmap string string) : gmap string string :=
  foldl (fun m q => (rwm q.1 m q.2).2) mapping queries.

(** ** Specification-side notions *)

(** The components of both version strings that survive the truncation to
    the shorter sequence. *)
Definition retained (have req : string) : list string * list string :=
  let hp := GoStrings.Split have "." in
  let rp := GoStrings.Split req "." in
  let l := min (length hp) (length rp) in
  (take l hp, take l rp).

(** [parsed ss zs]: every component of [ss] is accepted by [Atoi], with
    the values [zs]. *)
Definition parsed (ss : list string) (zs : list Z) : Prop :=
  Forall2 (fun s z => Strconv.Atoi s = inl z) ss zs.

(** Strictly less under component-wise comparison: the first position at
    which the two sequences differ holds a smaller number on the left. *)
Definition version_lt (hs rs : list Z) : Prop :=
  exists i hv rv,
    hs !! i = Some hv /\ rs !! i = Some rv /\ hv < rv /\
    take i hs = take i rs.

(** A component written as a non-negative integer: one or more decimal
    digits. *)
Definition nonneg_integer (s : string) : Prop :=
  s <> EmptyString /\
  forall c, In c (list_ascii_of_string s) -> is_Some (Strconv.digit c).

(** Two components that parse to the same number. *)
Definition same_number (h r : string) : Prop :=
  exists z, Strconv.Atoi h = inl z /\ Strconv.Atoi r = inl z.

(** The vendored import path of a dependency edge and the entry the edge
    contributes, forward or undone. *)
Definition gx_path (dep : Dependency.t) (child : Package.t) : string :=
  "gx/ipfs/" +:+ Dependency.Hash dep +:+ "/" +:+ Package.Name child.

Definition edge_entry (undo : bool) (dep : Dependency.t) (child : Package.t)
  : string * string :=
  let dvcs := GoInfo.DvcsImport (Package.Gx child) in
  if undo then (gx_path dep child, dvcs) else (dvcs, gx_path dep child).

(** The dependency tree below a package, as the loader resolves it, is
    walked by at most [n] nested calls (one for a package without
    dependencies): a finite tree, as the hashes of a well-formed
    dependency graph give. *)
Inductive depth_within (env : Env)
          (FindPackageInDir : Package.t -> string -> Package.t * option string)
          (pkgdir : string)
  : nat -> Package.t -> Prop :=
| depth_within_children n pkg :
    (forall dep st child st',
        dep ∈ Package.Dependencies pkg ->
        loadDep env FindPackageInDir dep pkgdir st = Some (inl child, st') ->
        depth_within env FindPackageInDir pkgdir n child) ->
    depth_within env FindPackageInDir pkgdir (S n) pkg.

(** A plain path element: not empty, without a slash, neither [.] nor
    [..]. *)
Definition plain_elem (e : string) : Prop :=
  e <> EmptyString /\ e <> "." /\ e <> ".." /\
  ~ In "/"%char (list_ascii_of_string e).

(** A clean absolute path: plain elements under the root, joined by
    single slashes, no slash at the end. *)
Definition clean_root (p : string) : Prop :=
  exists elems,
    elems <> [] /\ Forall plain_elem elems /\
    p = "/" +:+ GoStrings.Join elems "/".

(** The error of both resolvers for a path outside the source root. *)
Definition not_within : error := errorString "package not within GOPATH/src".

(** The state with more lines logged. *)
Definition add_lines (st : state) (ls : list logline) : state :=
  mkState (tbl st) (logged st ++ ls).

(** [preserves R c]: every run of [c] that returns relates the state
    before to the state after. *)
Definition preserves {A} (R : relation state) (c : act A) : Prop :=
  forall st a st', c st = Some (a, st') -> R st st'.

(** No key leaves the table. *)
Definition keeps_keys : relation state :=
  fun st st' => dom (tbl st) ⊆ dom (tbl st').

(** No entry leaves the table or changes its value. *)
Definition keeps_entries : relation state :=
  fun st st' => tbl st ⊆ tbl st'.

(** A line written by [loadDep] through [VLog]. *)
Definition loader_line (l : logline) : Prop :=
  format l = "  - fetching dep: %s (%s)" \/
  format l = "  - checking in global namespace (%s)".

(** The log grows by lines of the loader only, by none unless [Verbose]
    is set. *)
Definition logs_loader_lines (env : Env) : relation state :=
  fun st st' =>
    exists extra, logged st' = logged st ++ extra /\
                  Forall loader_line extra /\
                  (Verbose env = false -> extra = []).

(** The diagnostic of [buildMap] for an import path claimed by the hashes
    [e] and [h]. *)
Definition conflict_lines (imp e h : string) : list logline :=
  [Logline "have two dep packages with same import path: " [imp];
   Logline "  - " [e];
   Logline "  - " [h]].

(** The key of an entry, followed by a slash, does not start [s]. *)
Definition no_match (s : string) (kv : string * string) : Prop :=
  GoStrings.HasPrefix s (kv.1 +:+ "/") = false.

(** The lines [VLog] adds: none unless [Verbose] is set. *)
Definition vlines (env : Env) (ls : list logline) : list logline :=
  if Verbose env then ls else [].

Definition fetching_line (dep : Dependency.t) : logline :=
  Logline "  - fetching dep: %s (%s)" [Dependency.Name dep; Dependency.Hash dep].

Definition global_line (p : string) : logline :=
  Logline "  - checking in global namespace (%s)" [p].

(** [strings.Contains(s, substr)] *)
Fixpoint Contains (s substr : string) : bool :=
  GoStrings.HasPrefix s substr ||
  match s with
  | EmptyString => false
  | String _ s' => Contains s' substr
  end.

(** ** Test fixtures: a project under [/go/src] and its vendor tree *)

Module Fixture.

(** A directory tree for [gx.FindPackageInDir]: the listed directories
    hold a package with a complete descriptor, which a lookup decodes
    into the struct; every other lookup fails the way gx reports it and
    leaves the struct as it was. *)
Definition tree (l : list (string * Package.t)) (pkg : Package.t)
           (dir : string) : Package.t * option string :=
  match list_find (fun e => e.1 = dir) l with
  | Some (_, (_, p)) => (p, None)
  | None => (pkg, Some ("no package found in hashdir: " +:+ dir))
  end.

(** Descriptors by name, for the loaders that return a fresh package:
    the listed ones load, every other one fails. *)
Definition named (l : list (string * Package.t)) (name : string)
  : Package.t + string :=
  match list_find (fun e => e.1 = name) l with
  | Some (_, (_, p)) => inl p
  | None => inr ("no package found in hashdir: " +:+ name)
  end.

Definition env : Env := mkEnv "/go" "/go/src/github.com/me/proj" false.
Definition pkgdir : string := GoPath.Join [cwd env; vendorDir].
Definition empty : state := mkState ∅ [].
Definition leaf (name dvcs : string) : Package.t :=
  Package.mk name [] (GoInfo.mk dvcs EmptyString).

(** One dependency [y] at hash [Qm123], imported from [github.com/x/y]. *)
Definition proj : Package.t :=
  Package.mk "proj" [Dependency.mk "y" "Qm123"]
             (GoInfo.mk EmptyString EmptyString).
Definition vendor : Package.t -> string -> Package.t * option string :=
  tree [(pkgdir +:+ "/Qm123", leaf "y" "github.com/x/y")].

(** Two dependencies that both come from [github.com/a/b], at the
    hashes [Qm1] and [Qm2]. *)
Definition clash : Package.t :=
  Package.mk "clash" [Dependency.mk "b1" "Qm1"; Dependency.mk "b2" "Qm2"]
             (GoInfo.mk EmptyString EmptyString).
Definition clash_vendor : Package.t -> string -> Package.t * option string :=
  tree [(pkgdir +:+ "/Qm1", leaf "b" "github.com/a/b");
        (pkgdir +:+ "/Qm2", leaf "b" "github.com/a/b");
        ("vendor/gx/ipfs/Qm1", leaf "b" "github.com/a/b");
        ("vendor/gx/ipfs/Qm2", leaf "b" "github.com/a/b")].

(** [y] is vendored, [gone] is nowhere; [cached] is in the global cache
    only. *)
Definition broken : Package.t :=
  Package.mk "broken" [Dependency.mk "y" "Qm123"; Dependency.mk "gone" "QmX"]
             (GoInfo.mk EmptyString EmptyString).
Definition cached : Dependency.t := Dependency.mk "cached" "QmG".
Definition gone : Dependency.t := Dependency.mk "gone" "QmX".
Definition cache : Package.t -> string -> Package.t * option string :=
  tree [(pkgdir +:+ "/Qm123", leaf "y" "github.com/x/y");
        ("/go/src/gx/ipfs/QmG", leaf "cached" "github.com/x/cached")].

(** The descriptor of [QmB] in the vendor directory has a field of the
    wrong type after its name: the local lookup fills [Name] and fails.
    The copy in the global cache has no name: decoding it leaves that
    field as it is. *)
Definition torn : Dependency.t := Dependency.mk "b" "QmB".
Definition half_decoded (pkg : Package.t) (dir : string)
  : Package.t * option string :=
  if bool_decide (dir = pkgdir +:+ "/QmB") then
    (Package.mk "from-vendor" (Package.Dependencies pkg) (Package.Gx pkg),
     Some "json: cannot unmarshal number into Go value of type []*gxutil.Dependency")
  else if bool_decide (dir = "/go/src/gx/ipfs/QmB") then
    (Package.mk (Package.Name pkg) []
                (GoInfo.mk "github.com/x/b" (GoInfo.GoVersion (Package.Gx pkg))),
     None)
  else (pkg, Some ("no package found in hashdir: " +:+ dir)).

(** A table in which one key extends another. *)
Definition nested : gmap string string :=
  {[ "a" := "X"; "a/b" := "Y" ]}.

End Fixture.

(** ** More of [main.go]: the dry-run printer and the hooks *)

(** [sort.Strings]: ascending in the byte-wise order of Go strings. *)
Definition sort_Strings (names : list string) : list string :=
  merge_sort String.le names.

Definition tab : string := String (ascii_of_nat 9) EmptyString.
Definition newline : string := String (ascii_of_nat 10) EmptyString.

(** [fmt.Fprintf(w, "%s\t%s\n", a, b)]: the text written to the
    tabwriter [w]. *)
Definition tab_line (a b : string) : string := a +:+ tab +:+ b +:+ newline.

(** [tabPrintSortedMap(headers, m)]: what reaches the standard output.
    The function writes its lines to the writer
    [w := tabwriter.NewWriter(os.Stdout, 12, 4, 1, ' ', 0)] and ends with
    [w.Flush()]; [tabwriter texts] is what this writer sends to the
    standard output for the texts written to it, in order: the formatter
    of Go's library, which replaces the tabs by padding, is taken as
    given.  [order] is the order in which [range] yields the entries of
    [m]; [None] is the panic of [headers[0]] or [headers[1]] out of
    range, before anything is flushed. *)
Definition tabPrintSortedMap (tabwriter : list string -> string)
           (headers : option (list string))
           (order : list (string * string)) (m : gmap string string)
  : option string :=
  let names := (fun kv => kv.1) <$> order in
  let names := sort_Strings names in
  match
    match headers with
    | None => Some []
    | Some hs =>
        match hs !! 0%nat, hs !! 1%nat with
        | Some h0, Some h1 => Some [tab_line h0 h1]
        | _, _ => None
        end
    end
  with
  | None => None
  | Some head =>
      Some (tabwriter
              (head ++
               ((fun n => tab_line n (default EmptyString (m !! n))) <$> names)))
  end.

(** [s[n:]] with its bounds check: [None] is the panic for [n > len(s)]. *)
Definition slice_checked (s : string) (n : nat) : option string :=
  if (n <=? GoStrings.len s)%nat then Some (GoStrings.slice_from s n) else None.

(** The errors of [reqCheckHook], by the place that makes them. *)
Inductive reqCheckError : Type :=
| LoadPackageFileError (msg : string)
    (* the error of gx.LoadPackageFile, returned as it is *)
| NoCompiler
    (* no go compiler installed *)
| UnrecognizedOutput
    (* unrecognized output from go compiler *)
| AtoiError (e : Strconv.NumError)
    (* the error of versionComp, returned as it is *)
| RequiresAtLeast (name reqvers havevers : string)
    (* package '%s' requires at least go version %s, you have %s installed. *)
| CompiledWith (name reqvers gxgocompvers : string).
    (* package '%s' requires at least go version %s. however, your gx-go
       binary was compiled with %s. ... *)

(** What a hook does: it returns, with an error or [nil] and the lines it
    logged, or it panics. *)
Inductive hook_result : Type :=
| Returned (err : option reqCheckError) (logs : list logline)
| Panicked.

Section Hooks.

Variable env : Env.

(** [gx.PkgFileName], the name of the descriptor file. *)
Variable PkgFileName : string.

(** [gx.LoadPackageFile(&pkg, file)] and [LoadPackageFile(file)]: the
    descriptor read from [file], or the text of the error. *)
Variable LoadPackageFile : string -> Package.t + string.

(** [gx.SavePackageFile(pkg, file)]: the text of its error, if any. *)
Variable SavePackageFile : Package.t -> string -> option string.

(** [exec.Command("go", "version").CombinedOutput()]: the output, or
    [None] when the command fails. *)
Variable go_version : option string.

(** [runtime.Version()] *)
Variable runtime_Version : string.

Definition reqCheckHook (pkgpath : string) : hook_result :=
  let pkgfile := GoPath.Join [pkgpath; PkgFileName] in
  match LoadPackageFile pkgfile with
  | inr err => Returned (Some (LoadPackageFileError err)) []
  | inl npkg =>
      if negb (bool_decide (GoInfo.GoVersion (Package.Gx npkg) = EmptyString))
      then
        match go_version with
        | None => Returned (Some NoCompiler) []
        | Some out =>
            let parts := GoStrings.Split out " " in
            if (length parts <? 4)%nat
            then Returned (Some UnrecognizedOutput) []
            else
              match parts !! 2%nat with
              | None => Panicked
              | Some word =>
              match slice_checked word 2 with
              | None => Panicked
              | Some havevers =>
                  let reqvers := GoInfo.GoVersion (Package.Gx npkg) in
                  match versionComp havevers reqvers with
                  | None => Panicked
                  | Some (_, Some err) => Returned (Some (AtoiError err)) []
                  | Some (true, None) =>
                      Returned (Some (RequiresAtLeast (Package.Name npkg)
                                                      reqvers havevers)) []
                  | Some (false, None) =>
                      let gxgocompvers := runtime_Version in
                      if GoStrings.HasPrefix gxgocompvers "go" then
                        match slice_checked gxgocompvers 2 with
                        | None => Panicked
                        | Some vers =>
                            match versionComp vers reqvers with
                            | None => Panicked
                            | Some (_, Some err) =>
                                Returned (Some (AtoiError err)) []
                            | Some (true, None) =>
                                Returned (Some (CompiledWith (Package.Name npkg)
                                                             reqvers gxgocompvers))
                                         []
                            | Some (false, None) => Returned None []
                            end
                        end
                      else
                        Returned None
                          [Logline "gx-go was compiled with an unrecognized version of go. (%s)"
                                   [gxgocompvers];
                           Logline "If you encounter any strange issues during its usage, try rebuilding gx-go with go %s or higher"
                                   [reqvers]]
                  end
              end
              end
        end
      else Returned None []
  end.

(** The action of the [post-init] hook on the arguments [args]: the
    descriptor handed to [gx.SavePackageFile] with its file, if the hook
    gets there, and the error returned. *)
Definition postInitHook (args : list string)
  : option (Package.t * string) * option string :=
  let dir := match args with
             | first :: _ => first
             | [] => cwd env
             end in
  let pkgpath := GoPath.Join [dir; PkgFileName] in
  match LoadPackageFile pkgpath with
  | inr err => (None, Some err)
  | inl pkg =>
      let '(imp, _) := packagesGoImport env dir in
      let pkg :=
        if negb (bool_decide (imp = EmptyString))
        then Package.mk (Package.Name pkg) (Package.Dependencies pkg)
                        (GoInfo.mk imp (GoInfo.GoVersion (Package.Gx pkg)))
        else pkg in
      (Some (pkg, pkgpath), SavePackageFile pkg pkgpath)
  end.

End Hooks.

(** ** Notions for the further properties *)

(** The entries the builder writes: in the forward table a DVCS import
    path, never empty, to a path under [gx/ipfs/]; in the undo table the
    other way round. *)
Definition entry_shape (undo : bool) (k v : string) : Prop :=
  if undo
  then GoStrings.HasPrefix k "gx/ipfs/" = true /\ v <> EmptyString
  else k <> EmptyString /\ GoStrings.HasPrefix v "gx/ipfs/" = true.

(** A run of assignments [m[k] = v], first to last. *)
Definition apply_writes (writes : list (string * string))
           (m : gmap string string) : gmap string string :=
  foldl (fun m kv => <[kv.1 := kv.2]> m) m writes.

(** The value the last assignment to [k] in [writes] leaves, if any. *)
Fixpoint last_write (writes : list (string * string)) (k : string)
  : option string :=
  match writes with
  | [] => None
  | (k', v) :: rest =>
      match last_write rest k with
      | Some v' => Some v'
      | None => if bool_decide (k' = k) then Some v else None
      end
  end.

(** [writes_only c]: a run of [c] does not read the state; what it does
    to the table is a run of assignments and what it does to the log is
    to add lines, the same whatever the table and the log were. *)
Definition writes_only {A} (c : act A) : Prop :=
  forall m lg a st',
    c (mkState m lg) = Some (a, st') ->
    exists writes lines,
      forall m' lg',
        c (mkState m' lg')
        = Some (a, mkState (apply_writes writes m') (lg' ++ lines)).

(** [P] holds of every entry of the table after, if of every entry
    before. *)
Definition keeps_shape (P : string -> string -> Prop) : relation state :=
  fun st st' => map_Forall P (tbl st) -> map_Forall P (tbl st').

(** One component list starts the other. *)
Definition one_extends (hp rp : list string) : Prop :=
  hp `prefix_of` rp \/ rp `prefix_of` hp.

(** A word without a space. *)
Definition spaceless (w : string) : Prop :=
  ~ In " "%char (list_ascii_of_string w).

(** The first entry of a path list and the rest: no colon in the first. *)
Definition colonless (w : string) : Prop :=
  ~ In ":"%char (list_ascii_of_string w).

(** ** Further fixtures *)

Module Scenario.

(** [top] depends on [mid], vendored at [QmM]; [mid] depends on [gone],
    which is nowhere. *)
Definition mid : Package.t :=
  Package.mk "mid" [Fixture.gone] (GoInfo.mk "github.com/x/mid" EmptyString).
Definition top : Package.t :=
  Package.mk "top" [Dependency.mk "mid" "QmM"]
             (GoInfo.mk EmptyString EmptyString).
Definition deep : Package.t -> string -> Package.t * option string :=
  Fixture.tree [(Fixture.pkgdir +:+ "/QmM", mid)].

(** A package whose one dependency is in the global cache only. *)
Definition needs_cache : Package.t :=
  Package.mk "needs-cache" [Fixture.cached]
             (GoInfo.mk EmptyString EmptyString).

(** A descriptor that asks for go 1.4, in the directory [/pkg]. *)
Definition wants_1_4 : Package.t :=
  Package.mk "lib" [] (GoInfo.mk "github.com/x/lib" "1.4").
Definition files : string -> Package.t + string :=
  Fixture.named [("/pkg/package.json", wants_1_4);
                ("/go/src/github.com/me/proj/package.json", Fixture.proj);
                ("/tmp/elsewhere/package.json", wants_1_4)].

End Scenario.

(** ** More of [main.go]: the commands around the builders *)

(** [strings.Split(s, sep)[0]] for a non-empty [sep]: what stands before
    the leftmost occurrence of [sep], all of [s] when there is none. *)
Fixpoint Split_first (s sep : string) : string :=
  if GoStrings.HasPrefix s sep then EmptyString
  else match s with
       | EmptyString => EmptyString
       | String c s' => String c (Split_first s' sep)
       end.

(** The elements of a path from the last one on, without the empty ones
    that trailing slashes leave. *)
Fixpoint drop_empty (elems : list string) : list string :=
  match elems with
  | e :: rest => if bool_decide (e = EmptyString) then drop_empty rest else elems
  | [] => []
  end.

(** [filepath.Base(path)] on Unix: the last element of the path, trailing
    slashes apart; [.] for the empty path, [/] for slashes only. *)
Definition Base (path : string) : string :=
  if bool_decide (path = EmptyString) then "."
  else match drop_empty (rev (GoStrings.Split path "/")) with
       | [] => "/"
       | last :: _ => last
       end.

(** [mapping := make(map[string]string)]: the table of the state is the
    map of the command from here on. *)
Definition make_map : act unit :=
  fun s => Some (tt, mkState ∅ (logged s)).

(** The errors of the [post-install] hook. *)
Inductive postInstallError : Type :=
| FindPackageFailed (msg : string)
    (* find package failed: %s *)
| BuildingFailed (err : error).
    (* building rewrite mapping failed: %s *)

(** The errors of [rewrite]. *)
Inductive rewriteError : Type :=
| LoadFailed (msg : string)
    (* the error of LoadPackageFile, returned as it is *)
| BuildFailed (err : error)
    (* build of rewrite mapping failed:\n%s *)
| DepNotFound (arg : string)
    (* %s not found *)
| LoadDepFailed (err : error).
    (* the error of loadDep, returned as it is *)

(** How [rewrite] ends: with an error, with the table of the dry run
    printed, or in [doRewrite(pkg, cwd, mapping)] on the table of the
    state. *)
Inductive rewriteOutcome : Type :=
| Failed (err : rewriteError)
| Printed (out : string)
| Rewrites (pkg : Package.t) (dir : string)
| RewritePanicked.

(** How [postImportHook] ends: with the error of [gx.LoadPackage], without
    touching the sources, in [doUpdate(cwd, from, to)], or in the panic
    of [yesNoPrompt]. *)
Inductive importOutcome : Type :=
| ImportFailed (msg : string)
| NoUpdate
| Updates (dir from to : string)
| ImportPanicked.

Section Commands.

Variable env : Env.
Variable FindPackageInDir :
  Package.t -> string -> Package.t * option string.

(** [gx.PkgFileName] *)
Variable PkgFileName : string.

(** [LoadPackageFile(name)]: the descriptor decoded from the file, or the
    text of the error. *)
Variable LoadPackageFile : string -> Package.t + string.

(** [pkg.FindDep(ref)] of gx: the dependency of [pkg] that [ref] names,
    if any. *)
Variable FindDep : Package.t -> string -> option Dependency.t.

(** The order in which [range] yields the entries of a map. *)
Variable order : gmap string string -> list (string * string).

(** The tabwriter of [tabPrintSortedMap]: what it sends to the standard
    output for the texts written to it. *)
Variable tabwriter : list string -> string.

(** [gx.LoadPackage(&npkg, "go", hash)] *)
Variable LoadPackage : string -> Package.t + string.

(** [strings.ToLower] *)
Variable ToLower : string -> string.

(** The action of the [post-install] hook on the argument [npkg], up to
    the call [doRewrite(&pkg, dir, mapping)]: [inr (pkg, dir)] when it
    gets there, with [mapping] the table of the state. *)
Definition postInstallHook (depth : nat) (npkg : string)
  : act (postInstallError + Package.t * string) :=
  let pkg := Package.zero in
  let '(pkg, err) := FindPackageInDir pkg npkg in
  match err with
  | Some err => ret (inl (FindPackageFailed err))
  | None =>
      let dir := GoPath.Join [npkg; Package.Name pkg] in
      let reldir :=
        if Contains npkg "vendor/gx/ipfs"
        then
          let reldir := Split_first npkg "vendor/gx/ipfs" in
          GoPath.Join [reldir; "vendor"; "gx"; "ipfs"]
        else dir in
      make_map;;
      err ← buildRewriteMapping env FindPackageInDir depth pkg reldir false;
      match err with
      | Some err => ret (inl (BuildingFailed err))
      | None =>
          let hash := Base npkg in
          let newimp := "gx/ipfs/" +:+ hash +:+ "/" +:+ Package.Name pkg in
          map_set (GoInfo.DvcsImport (Package.Gx pkg)) newimp;;
          ret (inr (pkg, dir))
      end
  end.

(** The loop of [rewrite] over its arguments. *)
Fixpoint rewrite_args (pkg : Package.t) (pkgdir : string) (undo : bool)
         (args : list string) : act (option rewriteError) :=
  match args with
  | [] => ret None
  | arg :: rest =>
      match FindDep pkg arg with
      | None => ret (Some (DepNotFound arg))
      | Some dep =>
          r ← loadDep env FindPackageInDir dep pkgdir;
          match r with
          | inr err => ret (Some (LoadDepFailed err))
          | inl cpkg =>
              addRewriteForDep dep cpkg undo;;
              rewrite_args pkg pkgdir undo rest
          end
      end
  end.

(** The action of [rewrite] with the flags [--undo], [--dry-run] and
    [--pkgdir] (empty when not given) on the arguments [args], up to the
    call of [doRewrite]. *)
Definition RewriteCommand (depth : nat) (undo dry_run : bool)
           (pdopt : string) (args : list string) : act rewriteOutcome :=
  match LoadPackageFile PkgFileName with
  | inr err => ret (Failed (LoadFailed err))
  | inl pkg =>
      let pkgdir := GoPath.Join [cwd env; vendorDir] in
      let pkgdir :=
        if negb (bool_decide (pdopt = EmptyString)) then pdopt else pkgdir in
      VLog env "  - building rewrite mapping" [];;
      make_map;;
      err ← match args with
            | [] =>
                err ← buildRewriteMapping env FindPackageInDir depth pkg
                                          pkgdir undo;
                ret (BuildFailed <$> err)
            | _ :: _ => rewrite_args pkg pkgdir undo args
            end;
      match err with
      | Some err => ret (Failed err)
      | None =>
          VLog env "  - rewrite mapping complete" [];;
          if dry_run then
            ((fun st =>
                match tabPrintSortedMap tabwriter None (order (tbl st))
                                        (tbl st) with
                | Some out => Some (Printed out, st)
                | None => Some (RewritePanicked, st)
                end) : act rewriteOutcome)
          else ret (Rewrites pkg (cwd env))
      end
  end.

(** The loop of [yesNoPrompt] over the lines the scanner yields: what is
    printed and the answer, [None] for the panic at the end of the
    input. *)
Fixpoint yesNoPrompt_scan (def : bool) (lines : list string)
  : list string * option bool :=
  match lines with
  | [] => ([], None)
  | text :: rest =>
      let val := ToLower text in
      if bool_decide (val = EmptyString) then ([], Some def)
      else if bool_decide (val = "y") then ([], Some true)
      else if bool_decide (val = "n") then ([], Some false)
      else
        let '(out, r) := yesNoPrompt_scan def rest in
        (("please type 'y' or 'n'" +:+ newline) :: out, r)
  end.

Definition yesNoPrompt (prompt : string) (def : bool) (lines : list string)
  : list string * option bool :=
  let opts := if def then "[Y/n]" else "[y/N]" in
  let '(out, r) := yesNoPrompt_scan def lines in
  ((prompt +:+ " " +:+ opts +:+ " ") :: out, r).

(** [postImportHook(pkg, npkgHash)] on the lines of the standard input:
    what is printed and how the hook ends. *)
Definition postImportHook (pkg : Package.t) (npkgHash : string)
           (lines : list string) : list string * importOutcome :=
  match LoadPackage npkgHash with
  | inr err => ([], ImportFailed err)
  | inl npkg =>
      let dvcs := GoInfo.DvcsImport (Package.Gx npkg) in
      if negb (bool_decide (dvcs = EmptyString)) then
        let q := "update imports of " +:+ dvcs +:+
                 " to the newly imported package?" in
        match yesNoPrompt q false lines with
        | (out, None) => (out, ImportPanicked)
        | (out, Some true) =>
            let nimp := "gx/ipfs/" +:+ npkgHash +:+ "/" +:+ Package.Name npkg in
            (out, Updates (cwd env) dvcs nimp)
        | (out, Some false) => (out, NoUpdate)
        end
      else ([], NoUpdate)
  end.

End Commands.

(** An answer [yesNoPrompt] takes, in lower case. *)
Definition recognised (val : string) : Prop :=
  val = EmptyString \/ val = "y" \/ val = "n".

(** [loadDep] returns [child] for [dep]. *)
Definition resolves (env : Env)
           (FindPackageInDir : Package.t -> string -> Package.t * option string)
           (pkgdir : string) (dep : Dependency.t) (child : Package.t) : Prop :=
  exists st st',
    loadDep env FindPackageInDir dep pkgdir st = Some (inl child, st').

(** The traversal from [pkg] comes to [parent]: to [pkg] itself, and to
    what [loadDep] returns for a dependency of a package it comes to. *)
Inductive visits (env : Env)
          (FindPackageInDir : Package.t -> string -> Package.t * option string)
          (pkgdir : string) (pkg : Package.t) : Package.t -> Prop :=
| visits_root : visits env FindPackageInDir pkgdir pkg pkg
| visits_child parent dep child :
    visits env FindPackageInDir pkgdir pkg parent ->
    dep ∈ Package.Dependencies parent ->
    resolves env FindPackageInDir pkgdir dep child ->
    visits env FindPackageInDir pkgdir pkg child.

(** [kv] is the entry of an edge of the traversal from [pkg]: of a
    dependency of a package the traversal comes to and of the package
    [loadDep] returns for it, one with a DVCS import. *)
Definition entry_of_traversal (env : Env)
           (FindPackageInDir : Package.t -> string -> Package.t * option string)
           (pkgdir : string) (undo : bool) (pkg : Package.t)
           (kv : string * string) : Prop :=
  exists parent dep child,
    visits env FindPackageInDir pkgdir pkg parent /\
    dep ∈ Package.Dependencies parent /\
    resolves env FindPackageInDir pkgdir dep child /\
    GoInfo.DvcsImport (Package.Gx child) <> EmptyString /\
    kv = edge_entry undo dep child.

(** The package directory of [rewrite]: the value of [--pkgdir], or the
    vendor directory below [cwd]. *)
Definition package_dir (env : Env) (pdopt : string) : string :=
  if bool_decide (pdopt = EmptyString)
  then GoPath.Join [cwd env; vendorDir] else pdopt.

(** The reminder of [yesNoPrompt]. *)
Definition reminder : string := "please type 'y' or 'n'" +:+ newline.

(** ** Fixtures for the commands *)

Module Installed.

(** [lib], installed at the hash [QmL] in the vendor directory of the
    project; its one dependency [fork], vendored next to it at [QmD],
    claims the import path of [lib] itself. *)
Definition lib : Package.t :=
  Package.mk "lib" [Dependency.mk "fork" "QmD"]
             (GoInfo.mk "github.com/x/lib" EmptyString).
Definition npkg : string := Fixture.pkgdir +:+ "/QmL".
Definition files : Package.t -> string -> Package.t * option string :=
  Fixture.tree [(npkg, lib);
                (Fixture.pkgdir +:+ "/QmD",
                 Fixture.leaf "fork" "github.com/x/lib")].

(** [app] and its descriptor file: two dependencies, [y] with a
    dependency [z] of its own, and [w]. *)
Definition y : Package.t :=
  Package.mk "y" [Dependency.mk "z" "QmZ"]
             (GoInfo.mk "github.com/x/y" EmptyString).
Definition app : Package.t :=
  Package.mk "app" [Dependency.mk "y" "QmY"; Dependency.mk "w" "QmW"]
             (GoInfo.mk "github.com/me/proj" EmptyString).
Definition vendor : Package.t -> string -> Package.t * option string :=
  Fixture.tree [(Fixture.pkgdir +:+ "/QmY", y);
                (Fixture.pkgdir +:+ "/QmZ", Fixture.leaf "z" "github.com/x/z");
                (Fixture.pkgdir +:+ "/QmW", Fixture.leaf "w" "github.com/x/w")].
Definition descriptor : string -> Package.t + string :=
  Fixture.named [("package.json", app)].

(** [diamond] depends on [x] at [QmX1] and on [b], which depends on [x]
    at [QmX0]; both [x] are imported from [github.com/x/x]. *)
Definition b : Package.t :=
  Package.mk "b" [Dependency.mk "x" "QmX0"]
             (GoInfo.mk "github.com/x/b" EmptyString).
Definition diamond : Package.t :=
  Package.mk "diamond" [Dependency.mk "x" "QmX1"; Dependency.mk "b" "QmB"]
             (GoInfo.mk EmptyString EmptyString).
Definition diamond_vendor : Package.t -> string -> Package.t * option string :=
  Fixture.tree [(Fixture.pkgdir +:+ "/QmX1", Fixture.leaf "x" "github.com/x/x");
                (Fixture.pkgdir +:+ "/QmX0", Fixture.leaf "x" "github.com/x/x");
                (Fixture.pkgdir +:+ "/QmB", b)].

(** [pkg.FindDep(ref)] as gx has it: the first dependency whose hash or
    name is [ref]. *)
Definition FindDep (pkg : Package.t) (ref : string) : option Dependency.t :=
  snd <$> list_find (fun d => Dependency.Hash d = ref \/ Dependency.Name d = ref)
                    (Package.Dependencies pkg).

(** An iteration order of maps. *)
Definition order (m : gmap string string) : list (string * string) :=
  map_to_list m.

(** What the tabwriter of [tabPrintSortedMap] (cells 12 wide at least,
    padded by one space at least) makes of lines of two cells, a key, a
    tab, a value and a newline, in plain ASCII: the keys padded with
    spaces to the width of the column, then the values. *)
Definition spaces (n : nat) : string :=
  string_of_list_ascii (replicate n " "%char).
Definition two_columns (texts : list string) : string :=
  let rows := (fun text => GoStrings.Split text (ascii_of_nat 9)) <$> texts in
  let width :=
    foldr (fun row w =>
             match row with
             | key :: _ :: _ => Nat.max (GoStrings.len key + 1) w
             | _ => w
             end) 12%nat rows in
  GoStrings.Join
    ((fun row =>
        match row with
        | key :: value :: _ =>
            key +:+ spaces (width - GoStrings.len key) +:+ value
        | _ => GoStrings.Join row EmptyString
        end) <$> rows)
    EmptyString.

(** The package store of [gx.LoadPackage]. *)
Definition store : string -> Package.t + string :=
  Fixture.named [("QmY", y); ("QmN", Fixture.leaf "n" EmptyString)].

End Installed.

Example Atoi_smoke :
  Strconv.Atoi "42" = inl 42 /\
  Strconv.Atoi "+5" = inl 5 /\
  Strconv.Atoi "-007" = inl (-7) /\
  Strconv.Atoi "" = inr Strconv.ErrSyntax /\
  Strconv.Atoi "-" = inr Strconv.ErrSyntax /\
  Strconv.Atoi "1_0" = inr Strconv.ErrSyntax /\
  Strconv.Atoi "4beta1" = inr Strconv.ErrSyntax /\
  Strconv.Atoi "9223372036854775807" = inl Strconv.maxInt /\
  Strconv.Atoi "9223372036854775808" = inr Strconv.ErrRange /\
  Strconv.Atoi "-9223372036854775808" = inl Strconv.minInt /\
  Strconv.Atoi "99999999999999999999x" = inr Strconv.ErrRange.
Proof. repeat split; reflexivity. Qed.

Example path_smoke :
  GoPath.Join ["/go/"; "src"] = "/go/src" /\
  GoPath.Join ["a/../../b/./c//d"; "src"] = "../b/c/d/src" /\
  GoPath.Join ["/.."; "src"] = "/src" /\
  vendorDir = "vendor/gx/ipfs" /\
  GoStrings.Replace1 "a/b/a" "a" "X" = "X/b/a".
Proof. repeat split; reflexivity. Qed.

(** ** The version comparison *)

Section VersionComparison.

Implicit Types (hp rp : list string) (hs rs : list Z).

Lemma digit_range c d : Strconv.digit c = Some d -> 0 <= d <= 9.
Proof.
  unfold Strconv.digit.
  destruct (Z.leb_spec 48 (Z.of_N (N_of_ascii c))),
           (Z.leb_spec (Z.of_N (N_of_ascii c)) 57); simpl; intros [= <-]; lia.
Qed.

Lemma digits_nonneg acc s n :
  0 <= acc -> Strconv.digits acc s = inl n -> 0 <= n.
Proof.
  revert acc. induction s as [|c s IH]; intros acc Hacc; simpl.
  - by intros [= <-].
  - destruct (Strconv.digit c) as [d|] eqn:Hd; [|done].
    apply digit_range in Hd.
    destruct (Z.ltb_spec Strconv.maxUint64 (acc * 10 + d)); [done|].
    apply IH. lia.
Qed.

(** What [Atoi] accepts fits the 64-bit [int]. *)
Lemma Atoi_range s z :
  Strconv.Atoi s = inl z -> Strconv.minInt <= z <= Strconv.maxInt.
Proof.
  unfold Strconv.Atoi, Strconv.minInt, Strconv.maxInt.
  destruct s as [|c s]; [done|]. cbv zeta.
  destruct (if Ascii.eqb c "-" || Ascii.eqb c "+" then s else String c s)
    as [|c' body']; [done|].
  destruct (Strconv.digits 0 (String c' body')) as [un|e] eqn:Hun; [|done].
  apply digits_nonneg in Hun; [|done].
  destruct (Ascii.eqb c "-").
  - destruct (Z.ltb_spec (2 ^ 63) un); [done|]. intros [= <-]. lia.
  - destruct (Z.ltb_spec (2 ^ 63 - 1) un); [done|]. intros [= <-]. lia.
Qed.

Lemma min_is_min (a b : nat) : min a b = Nat.min a b.
Proof. unfold min. destruct (Nat.ltb_spec a b); lia. Qed.

Lemma retained_lengths have req :
  length (retained have req).1 = length (retained have req).2.
Proof.
  unfold retained; simpl. rewrite !length_take, min_is_min. lia.
Qed.

Lemma versionComp_retained have req :
  versionComp have req =
  versionComp_range (retained have req).2 0 (retained have req).1.
Proof. reflexivity. Qed.

(** Positions whose components parse to equal numbers are passed over. *)
Lemma versionComp_range_same front hpre rpre rrest hrest :
  Forall2 same_number hpre rpre ->
  versionComp_range (front ++ rpre ++ rrest) (length front) (hpre ++ hrest) =
  versionComp_range (front ++ rpre ++ rrest)
                    (length front + length rpre) hrest.
Proof.
  intros Hsame. revert front.
  induction Hsame as [|h r hpre rpre (z & Hh & Hr) _ IH]; intros front.
  - simpl. by rewrite Nat.add_0_r.
  - simpl. rewrite Hh. rewrite list_lookup_middle by done.
    rewrite Hr, Z.ltb_irrefl, Z.gtb_ltb, Z.ltb_irrefl.
    specialize (IH (front ++ [r])).
    rewrite length_app in IH. simpl in IH.
    rewrite <- !(assoc_L (++)) in IH. simpl in IH.
    replace (S (length front)) with (length front + 1)%nat by lia.
    rewrite IH. f_equal. lia.
Qed.

(** The loop at the first position that is not passed over. *)
Lemma versionComp_range_here front r rrest v hrest :
  versionComp_range (front ++ r :: rrest) (length front) (v :: hrest) =
  match Strconv.Atoi v with
  | inr err => Some (false, Some err)
  | inl hv =>
      match Strconv.Atoi r with
      | inr err => Some (false, Some err)
      | inl rv =>
          if hv <? rv then Some (true, None)
          else if hv >? rv then Some (false, None)
          else versionComp_range (front ++ r :: rrest)
                                 (S (length front)) hrest
      end
  end.
Proof. simpl. by rewrite list_lookup_middle. Qed.

Lemma version_lt_cons h r hs rs :
  version_lt (h :: hs) (r :: rs) <-> h < r \/ (h = r /\ version_lt hs rs).
Proof.
  split.
  - intros (i & hv & rv & Hh & Hr & Hlt & Htake).
    destruct i as [|i]; simpl in *.
    + left. congruence.
    + right. injection Htake as -> Htake. split; [done|].
      by exists i, hv, rv.
  - intros [Hlt | [-> (i & hv & rv & Hh & Hr & Hlt & Htake)]].
    + by exists 0%nat, h, r.
    + exists (S i), hv, rv. simpl. by rewrite Htake.
Qed.

Lemma version_lt_nil rs : ~ version_lt [] rs.
Proof. by intros (i & hv & rv & Hh & _). Qed.

(** The index [rp[i]] is always in range: [versionComp] never panics. *)
Lemma versionComp_range_total front rp hp :
  (length hp <= length rp)%nat ->
  is_Some (versionComp_range (front ++ rp) (length front) hp).
Proof.
  revert front rp. induction hp as [|v hp IH]; intros front rp Hlen.
  - by eexists.
  - destruct rp as [|r rp]; [simpl in Hlen; lia|].
    rewrite versionComp_range_here.
    destruct (Strconv.Atoi v) as [hv|e]; [|by eexists].
    destruct (Strconv.Atoi r) as [rv|e]; [|by eexists].
    destruct (hv <? rv); [by eexists|].
    destruct (hv >? rv); [by eexists|].
    specialize (IH (front ++ [r]) rp).
    rewrite length_app, <- (assoc_L (++)), Nat.add_1_r in IH.
    apply IH. simpl in Hlen. lia.
Qed.

Lemma versionComp_total have req : is_Some (versionComp have req).
Proof.
  rewrite versionComp_retained.
  apply (versionComp_range_total [] _ _).
  by rewrite retained_lengths.
Qed.

(** When every component parses, the loop decides [version_lt]. *)
Lemma versionComp_range_parsed front hp rp hs rs :
  parsed hp hs -> parsed rp rs -> length hs = length rs ->
  exists b,
    versionComp_range (front ++ rp) (length front) hp = Some (b, None) /\
    (b = true <-> version_lt hs rs).
Proof.
  intros Hh. revert front rp rs.
  induction Hh as [|v hv hp hs Hv _ IH]; intros front rp rs Hr Hlen.
  - exists false. split; [done|]. split; [done|].
    intros []%version_lt_nil.
  - destruct Hr as [|r rv rp rs Hrv Hr]; [done|].
    rewrite versionComp_range_here, Hv, Hrv.
    destruct (Z.ltb_spec hv rv) as [Hlt|Hge].
    { exists true. rewrite version_lt_cons. tauto. }
    rewrite Z.gtb_ltb. destruct (Z.ltb_spec rv hv) as [Hgt|Hle].
    { exists false. rewrite version_lt_cons. split; [done|].
      split; [done|]. lia. }
    destruct (IH (front ++ [r]) rp rs Hr) as (b & Hrun & Hb).
    { simpl in Hlen. lia. }
    rewrite length_app, <- (assoc_L (++)) in Hrun. simpl in Hrun.
    rewrite Nat.add_1_r in Hrun.
    exists b. split; [done|]. rewrite version_lt_cons, Hb.
    split; [intros ?; right; split; [lia|done] | intros [?|[_ ?]]; [lia|done]].
Qed.

End VersionComparison.

(** C3. On two dotted version strings (every retained component is
    accepted by [Atoi]) [versionComp] returns, without error, [true]
    exactly when [have] is strictly less than [req] under component-wise
    comparison of the sequences truncated to the shorter length; and the
    five rows of the version table hold. *)
Theorem versionComp_strictly_less :
  (forall have req hs rs,
      parsed (retained have req).1 hs ->
      parsed (retained have req).2 rs ->
      exists b, versionComp have req = Some (b, None) /\
                (b = true <-> version_lt hs rs)) /\
  versionComp "1.4" "1.4" = Some (false, None) /\
  versionComp "1.3" "1.4" = Some (true, None) /\
  versionComp "1.5" "1.4" = Some (false, None) /\
  versionComp "1.4.2" "1.4" = Some (false, None) /\
  versionComp "2" "1.9" = Some (false, None).
Proof.
  split; [|repeat split; reflexivity].
  intros have req hs rs Hh Hr.
  rewrite versionComp_retained.
  apply (versionComp_range_parsed [] _ _ hs rs Hh Hr).
  rewrite <- (Forall2_length _ _ _ Hh), <- (Forall2_length _ _ _ Hr).
  apply retained_lengths.
Qed.

Lemma versionComp_strictly_less_witness :
  parsed (retained "1.3.7" "1.4").1 [1; 3] /\
  parsed (retained "1.3.7" "1.4").2 [1; 4] /\
  exists b, versionComp "1.3.7" "1.4" = Some (b, None) /\
            (b = true <-> version_lt [1; 3] [1; 4]).
Proof.
  split; [repeat constructor|]. split; [repeat constructor|].
  apply (proj1 versionComp_strictly_less "1.3.7" "1.4" [1; 3] [1; 4]);
    repeat constructor.
Defined.

(** C8, as stated, fails: a retained component that is no number at all
    goes unnoticed when an earlier position already decides the
    comparison, and a negative component is accepted. *)
Lemma versionComp_unparsed_component_ignored :
  ("x" ∈ (retained "1.x" "2.0").1 /\
   ~ nonneg_integer "x" /\
   Strconv.Atoi "x" = inr Strconv.ErrSyntax /\
   versionComp "1.x" "2.0" = Some (true, None)) /\
  ("-1" ∈ (retained "-1" "0").1 /\
   ~ nonneg_integer "-1" /\
   versionComp "-1" "0" = Some (true, None)).
Proof.
  split; [split; [|split; [|split]] | split; [|split]].
  - change ("x" ∈ ["1"; "x"]). set_solver.
  - intros [_ H]. destruct (H "x"%char) as [d Hd]; [by left | discriminate].
  - reflexivity.
  - reflexivity.
  - change ("-1" ∈ ["-1"]). set_solver.
  - intros [_ H]. destruct (H "-"%char) as [d Hd]; [by left | discriminate].
  - reflexivity.
Qed.

(** C8, amended. Scanning the retained components from the left, past
    the positions where both strings hold the same number: [versionComp]
    fails with the error of [Atoi] when the component of either string at
    the next position is rejected by [Atoi]; when both are numbers and
    differ, the comparison is decided there and the components after it
    are not parsed. *)
Theorem versionComp_invalid_component
        have req hpre v hpost rpre r rpost :
  retained have req = (hpre ++ v :: hpost, rpre ++ r :: rpost) ->
  Forall2 same_number hpre rpre ->
  (forall e, Strconv.Atoi v = inr e ->
             versionComp have req = Some (false, Some e)) /\
  (forall hv e, Strconv.Atoi v = inl hv -> Strconv.Atoi r = inr e ->
                versionComp have req = Some (false, Some e)) /\
  (forall hv rv, Strconv.Atoi v = inl hv -> Strconv.Atoi r = inl rv ->
                 hv <> rv ->
                 versionComp have req = Some (bool_decide (hv < rv), None)).
Proof.
  intros Hret Hsame.
  assert (versionComp have req =
          versionComp_range (rpre ++ r :: rpost) (length rpre) (v :: hpost))
    as ->.
  { rewrite versionComp_retained, Hret.
    exact (versionComp_range_same [] hpre rpre (r :: rpost) (v :: hpost)
                                  Hsame). }
  rewrite versionComp_range_here.
  repeat split.
  - by intros e ->.
  - by intros hv e -> ->.
  - intros hv rv -> -> Hne. rewrite Z.gtb_ltb.
    destruct (Z.ltb_spec hv rv), (Z.ltb_spec rv hv);
      try lia; by (rewrite bool_decide_eq_true_2 by lia)
               || (rewrite bool_decide_eq_false_2 by lia).
Qed.

Lemma versionComp_invalid_component_witness :
  retained "1.4.x" "1.04.2" = ([] ++ "1" :: ["4"; "x"], [] ++ "1" :: ["04"; "2"])
  /\ retained "1.4.x" "1.04.2" = (["1"; "4"] ++ "x" :: [], ["1"; "04"] ++ "2" :: [])
  /\ versionComp "1.4.x" "1.04.2" = Some (false, Some Strconv.ErrSyntax).
Proof.
  split; [reflexivity|]. split; [reflexivity|].
  refine (proj1 (versionComp_invalid_component
                   "1.4.x" "1.04.2" ["1"; "4"] "x" [] ["1"; "04"] "2" []
                   eq_refl _) Strconv.ErrSyntax eq_refl).
  repeat constructor; [by exists 1 | by exists 4].
Defined.

(** ** Strings *)

Section Strings.
Import GoStrings.

Lemma app_nil_l s : EmptyString +:+ s = s.
Proof. reflexivity. Qed.

Lemma app_cons a s t : String a s +:+ t = String a (s +:+ t).
Proof. reflexivity. Qed.

Lemma app_assoc s t u : (s +:+ t) +:+ u = s +:+ t +:+ u.
Proof. induction s as [|a s IH]; [done|]. by rewrite !app_cons, IH. Qed.

Lemma len_app s t : len (s +:+ t) = (len s + len t)%nat.
Proof.
  induction s as [|a s IH]; [done|].
  rewrite app_cons. unfold len in *. simpl. by rewrite IH.
Qed.

Lemma HasPrefix_app p t : HasPrefix (p +:+ t) p = true.
Proof.
  induction p as [|a p IH]; [reflexivity|].
  rewrite app_cons. simpl. by rewrite Ascii.eqb_refl.
Qed.

Lemma HasPrefix_slice s p :
  HasPrefix s p = true -> s = p +:+ slice_from s (len p).
Proof.
  revert s. induction p as [|a p IH]; intros s; [intros _; reflexivity|].
  destruct s as [|b s]; [done|]. simpl.
  destruct (Ascii.eqb_spec a b) as [->|]; [|done].
  intros H. rewrite app_cons. f_equal. by apply IH.
Qed.

(** [HasPrefix s p] holds exactly when [s] begins with [p]. *)
Lemma HasPrefix_spec s p : HasPrefix s p = true <-> exists t, s = p +:+ t.
Proof.
  split.
  - intros H. eexists. by apply HasPrefix_slice.
  - intros [t ->]. apply HasPrefix_app.
Qed.

(** The slice [s[len(p):]] is in range whenever [s] begins with [p]. *)
Lemma HasPrefix_len s p : HasPrefix s p = true -> (len p <= len s)%nat.
Proof.
  intros [t ->]%HasPrefix_spec. rewrite len_app. lia.
Qed.

Lemma slice_from_app p t : slice_from (p +:+ t) (len p) = t.
Proof.
  induction p as [|a p IH]; [by destruct t|]. by rewrite app_cons.
Qed.

Lemma HasPrefix_app_l s k x :
  HasPrefix s (k +:+ x) = true -> HasPrefix s k = true.
Proof.
  intros [t ->]%HasPrefix_spec. apply HasPrefix_spec.
  exists (x +:+ t). apply app_assoc.
Qed.

(** One replacement at the start: the first occurrence of a prefix is
    the prefix itself. *)
Lemma Replace1_prefix s old new :
  HasPrefix s old = true ->
  Replace1 s old new = new +:+ slice_from s (len old).
Proof. intros H. destruct s; simpl; by rewrite H. Qed.

Lemma Split_nonempty s sep : Split s sep <> [].
Proof.
  induction s as [|c s IH]; simpl; [done|].
  destruct (Ascii.eqb c sep); [done|]. by destruct (Split s sep).
Qed.

End Strings.

(** ** Paths that [path.Join] leaves as they are *)

Section CleanPaths.
Import GoStrings.

Lemma Split_app_sep e t :
  ~ In "/"%char (list_ascii_of_string e) ->
  Split (e +:+ String "/" t) "/" = e :: Split t "/".
Proof.
  induction e as [|c e IH]; intros Hno; [done|].
  rewrite app_cons. simpl in *.
  destruct (Ascii.eqb_spec c "/") as [->|_]; [tauto|].
  rewrite IH; [done|tauto].
Qed.

Lemma Split_slashfree e :
  ~ In "/"%char (list_ascii_of_string e) -> Split e "/" = [e].
Proof.
  induction e as [|c e IH]; intros Hno; [done|]. simpl in *.
  destruct (Ascii.eqb_spec c "/") as [->|_]; [tauto|].
  rewrite IH; [done|tauto].
Qed.

Lemma Split_Join es :
  es <> [] -> Forall plain_elem es -> Split (Join es "/") "/" = es.
Proof.
  intros Hne Hes. induction Hes as [|e es (_ & _ & _ & He) Hes IH]; [done|].
  destruct es as [|e2 es]; [by apply Split_slashfree|].
  change (Join (e :: e2 :: es) "/") with (e +:+ String "/" (Join (e2 :: es) "/")).
  rewrite Split_app_sep by done. by rewrite IH.
Qed.

Lemma Join_snoc es x :
  es <> [] -> Join (es ++ [x]) "/" = Join es "/" +:+ "/" +:+ x.
Proof.
  intros Hne. induction es as [|e es IH]; [done|].
  destruct es as [|e2 es]; [done|].
  change (Join ((e :: e2 :: es) ++ [x]) "/")
    with (e +:+ "/" +:+ Join ((e2 :: es) ++ [x]) "/").
  rewrite IH by done.
  change (Join (e :: e2 :: es) "/") with (e +:+ "/" +:+ Join (e2 :: es) "/").
  by rewrite !app_assoc.
Qed.

Lemma clean_elems_plain rooted stack es :
  Forall plain_elem es -> GoPath.clean_elems rooted stack es = rev stack ++ es.
Proof.
  intros Hes. revert stack.
  induction Hes as [|e es (He1 & He2 & He3 & _) _ IH]; intros stack; simpl.
  - by rewrite app_nil_r.
  - rewrite !bool_decide_eq_false_2 by done. simpl.
    rewrite IH. simpl. by rewrite <- (assoc_L (++)).
Qed.

Lemma Clean_clean_root p : clean_root p -> GoPath.Clean p = p.
Proof.
  intros (es & Hne & Hes & ->).
  change ("/" +:+ Join es "/") with (String "/" (Join es "/")).
  unfold GoPath.Clean.
  change (Split (String "/" (Join es "/")) "/")
    with (EmptyString :: Split (Join es "/") "/").
  rewrite Split_Join by done. simpl.
  by rewrite clean_elems_plain.
Qed.

(** Joining [src] to a clean absolute root appends [/src]. *)
Lemma Join_src_clean_root gopath :
  clean_root gopath -> GoPath.Join [gopath; "src"] = gopath +:+ "/src".
Proof.
  intros (es & Hne & Hes & ->).
  assert (clean_root ("/" +:+ Join (es ++ ["src"]) "/")) as Hclean.
  { exists (es ++ ["src"]). split; [by destruct es|]. split; [|done].
    apply Forall_app. split; [done|]. apply Forall_singleton.
    repeat split; try discriminate.
    simpl. intros [|[|[|[]]]]; discriminate. }
  apply Clean_clean_root in Hclean.
  rewrite Join_snoc in Hclean by done.
  exact Hclean.
Qed.

End CleanPaths.

(** ** The Path Resolver *)

Section PathResolver.
Import GoStrings.

Variable env : Env.

Lemma packagesGoImport_root gopath p :
  getGoPath env = (gopath, None) ->
  packagesGoImport env p =
  let srcdir := GoPath.Join [gopath; "src"] +:+ "/" in
  if HasPrefix p srcdir then (slice_from p (len srcdir), None)
  else (EmptyString, Some not_within).
Proof.
  intros Hgp. unfold packagesGoImport. rewrite Hgp. simpl.
  by destruct (HasPrefix p _).
Qed.

Lemma getImportPath_root gopath pkgpath :
  getGoPath env = (gopath, None) ->
  getImportPath env pkgpath =
  let srcdir := GoPath.Join [gopath; "src"] +:+ "/" in
  if HasPrefix (cwd env) srcdir then (slice_from (cwd env) (len srcdir), None)
  else (EmptyString, Some not_within).
Proof.
  intros Hgp. unfold getImportPath. rewrite Hgp. simpl.
  by destruct (HasPrefix (cwd env) _).
Qed.

End PathResolver.

(** C6, as stated, fails: the prefix tested is not [sourceRoot + "/src/"]
    but the cleaned join of the root and [src]; with the root [/go/] the
    path [/go/src/x] does not begin with [/go//src/] and is resolved all
    the same, and [/go//src/x], which does begin with it, is rejected. *)
Lemma packagesGoImport_unclean_root :
  let env := mkEnv "/go/" "/go/src/x" false in
  getGoPath env = ("/go/", None) /\
  GoStrings.HasPrefix "/go/src/x" ("/go/" +:+ "/src/") = false /\
  packagesGoImport env "/go/src/x" = ("x", None) /\
  getImportPath env "/go/src/x" = ("x", None) /\
  GoStrings.HasPrefix "/go//src/x" ("/go/" +:+ "/src/") = true /\
  packagesGoImport env "/go//src/x" = (EmptyString, Some not_within).
Proof. repeat split; reflexivity. Qed.

(** C6, amended. With the source root [gopath] (the first entry of
    [GOPATH]), [packagesGoImport p] and [getImportPath] (on [cwd]) fail
    with the not-within-root error if the path does not begin with
    [path.Join(gopath, "src") + "/"], and otherwise return the rest of the
    path after that prefix; for a clean absolute root (plain elements
    joined by single slashes, no slash at the end) that prefix is
    [gopath + "/src/"]. *)
Theorem importIdentity_cleaned_root env gopath p pkgpath :
  getGoPath env = (gopath, None) ->
  let srcdir := GoPath.Join [gopath; "src"] +:+ "/" in
  ((~ exists rel, p = srcdir +:+ rel) ->
   packagesGoImport env p = (EmptyString, Some not_within)) /\
  (forall rel, p = srcdir +:+ rel -> packagesGoImport env p = (rel, None)) /\
  ((~ exists rel, cwd env = srcdir +:+ rel) ->
   getImportPath env pkgpath = (EmptyString, Some not_within)) /\
  (forall rel, cwd env = srcdir +:+ rel ->
               getImportPath env pkgpath = (rel, None)) /\
  (clean_root gopath -> srcdir = gopath +:+ "/src/").
Proof.
  intros Hgp srcdir.
  rewrite (packagesGoImport_root env gopath p Hgp).
  rewrite (getImportPath_root env gopath pkgpath Hgp).
  fold srcdir. cbv zeta.
  repeat split.
  - intros Hno. destruct (GoStrings.HasPrefix p srcdir) eqn:E; [|done].
    by apply HasPrefix_spec in E.
  - intros rel ->. by rewrite HasPrefix_app, slice_from_app.
  - intros Hno. destruct (GoStrings.HasPrefix (cwd env) srcdir) eqn:E; [|done].
    by apply HasPrefix_spec in E.
  - intros rel ->. by rewrite HasPrefix_app, slice_from_app.
  - intros Hclean. unfold srcdir.
    rewrite (Join_src_clean_root gopath Hclean). by rewrite app_assoc.
Qed.

Lemma importIdentity_cleaned_root_witness :
  getGoPath Fixture.env = ("/go", None) /\
  packagesGoImport Fixture.env "/go/src/github.com/x/y"
  = ("github.com/x/y", None) /\
  getImportPath Fixture.env "anything" = ("github.com/me/proj", None) /\
  GoPath.Join ["/go"; "src"] +:+ "/" = "/go" +:+ "/src/".
Proof.
  pose proof (importIdentity_cleaned_root
                Fixture.env "/go" "/go/src/github.com/x/y" "anything" eq_refl)
    as (_ & Hp & _ & Hc & Hroot).
  split; [reflexivity|]. split; [|split].
  - exact (Hp "github.com/x/y" eq_refl).
  - exact (Hc "github.com/me/proj" eq_refl).
  - apply Hroot. exists ["go"]. split; [done|]. split; [|reflexivity].
    apply Forall_singleton. repeat split; try discriminate.
    simpl. intros [|[|[]]]; discriminate.
Defined.

(** C9. [getImportPath] does not look at its argument: any two arguments
    give the same result in the same environment, and the result is made
    from [GOPATH] and the working directory alone, two environments that
    agree on these give the same result. *)
Theorem getImportPath_ignores_pkgpath :
  (forall env p1 p2, getImportPath env p1 = getImportPath env p2) /\
  (forall env env' p1 p2,
      GOPATH env = GOPATH env' -> cwd env = cwd env' ->
      getImportPath env p1 = getImportPath env' p2).
Proof.
  split; [reflexivity|].
  intros env env' p1 p2 Hgp Hcwd.
  unfold getImportPath, getGoPath. by rewrite Hgp, Hcwd.
Qed.

Lemma getImportPath_ignores_pkgpath_witness :
  getImportPath (mkEnv "/go" "/go/src/github.com/me/proj" false) "/tmp"
  = getImportPath (mkEnv "/go" "/go/src/github.com/me/proj" true)
                  "/go/src/github.com/x/y".
Proof.
  exact (proj2 getImportPath_ignores_pkgpath
               (mkEnv "/go" "/go/src/github.com/me/proj" false)
               (mkEnv "/go" "/go/src/github.com/me/proj" true)
               "/tmp" "/go/src/github.com/x/y" eq_refl eq_refl).
Defined.

(** ** Running stateful computations *)

Section Running.

Context {A B : Type}.

Lemma bind_run (c : act A) (k : A -> act B) st :
  (c ≫= k) st = match c st with
                | None => None
                | Some (a, st') => k a st'
                end.
Proof. reflexivity. Qed.

Lemma add_lines_nil st : add_lines st [] = st.
Proof. destruct st. unfold add_lines. simpl. by rewrite app_nil_r. Qed.

Lemma add_lines_app st ls ls' :
  add_lines (add_lines st ls) ls' = add_lines st (ls ++ ls').
Proof. unfold add_lines. simpl. by rewrite <- (assoc_L (++)). Qed.

Lemma Log_run fmt a st :
  Log fmt a st = Some (tt, add_lines st [Logline fmt a]).
Proof. reflexivity. Qed.

Lemma bind_Log_run fmt a (k : unit -> act B) st :
  (Log fmt a ≫= k) st = k tt (add_lines st [Logline fmt a]).
Proof. reflexivity. Qed.

Lemma preserves_ret R `{!Reflexive R} (a : A) : preserves R (ret a).
Proof. intros st a' st' [= _ <-]. reflexivity. Qed.

Lemma preserves_bind R `{!Transitive R} (c : act A) (k : A -> act B) :
  preserves R c -> (forall a, preserves R (k a)) -> preserves R (c ≫= k).
Proof.
  intros Hc Hk st b st'. rewrite bind_run.
  destruct (c st) as [[a st1]|] eqn:E; [|done].
  intros Hrun. etrans; [by eapply Hc | by eapply Hk].
Qed.

End Running.

Section Loop.

Variable body : Dependency.t -> act (option error).

Lemma range_deps_cons dep rest st :
  range_deps body (dep :: rest) st =
  match body dep st with
  | None => None
  | Some (Some err, st') => Some (Some err, st')
  | Some (None, st') => range_deps body rest st'
  end.
Proof.
  simpl. rewrite bind_run.
  by destruct (body dep st) as [[[err|] st']|].
Qed.

Lemma range_deps_app pre post st :
  range_deps body (pre ++ post) st =
  match range_deps body pre st with
  | None => None
  | Some (Some err, st') => Some (Some err, st')
  | Some (None, st') => range_deps body post st'
  end.
Proof.
  revert st. induction pre as [|dep pre IH]; intros st; [done|].
  rewrite <- app_comm_cons, !range_deps_cons.
  destruct (body dep st) as [[[err|] st']|]; [done| |done].
  apply IH.
Qed.

Lemma range_deps_preserves R `{!PreOrder R} deps :
  (forall dep, preserves R (body dep)) -> preserves R (range_deps body deps).
Proof.
  intros Hbody. induction deps as [|dep deps IH]; intros st r st'.
  - intros [= _ <-]. reflexivity.
  - rewrite range_deps_cons.
    destruct (body dep st) as [[[err|] st1]|] eqn:E; [| |done].
    + intros [= _ <-]. by eapply Hbody.
    + intros Hrest. etrans; [by eapply Hbody | by eapply IH].
Qed.

(** A loop that ends without error went through each of its edges
    without error. *)
Lemma range_deps_success pre dep post st st' :
  range_deps body (pre ++ dep :: post) st = Some (None, st') ->
  exists st1 st2,
    range_deps body pre st = Some (None, st1) /\
    body dep st1 = Some (None, st2) /\
    range_deps body post st2 = Some (None, st').
Proof.
  rewrite range_deps_app.
  destruct (range_deps body pre st) as [[[err|] st1]|]; [done| |done].
  rewrite range_deps_cons.
  destruct (body dep st1) as [[[err|] st2]|] eqn:E; [done| |done].
  intros Hpost. by exists st1, st2.
Qed.

End Loop.

(** ** The Dependency Loader *)

Section Loader.

Variable env : Env.
Variable FindPackageInDir :
  Package.t -> string -> Package.t * option string.

Lemma VLog_run fmt a st :
  VLog env fmt a st = Some (tt, add_lines st (vlines env [Logline fmt a])).
Proof.
  unfold VLog, vlines. destruct (Verbose env); [done|].
  by rewrite add_lines_nil.
Qed.

(** The three ways [loadDep] can go. *)
Lemma loadDep_run dep pkgdir st :
  loadDep env FindPackageInDir dep pkgdir st =
  let gdir := GoPath.Join [globalPath env; Dependency.Hash dep] in
  match FindPackageInDir Package.zero
                         (GoPath.Join [pkgdir; Dependency.Hash dep]) with
  | (cpkg, None) =>
      Some (inl cpkg, add_lines st (vlines env [fetching_line dep]))
  | (cpkg, Some _) =>
      let st' := add_lines st (vlines env [fetching_line dep; global_line gdir]) in
      match FindPackageInDir cpkg gdir with
      | (cpkg, None) => Some (inl cpkg, st')
      | (_, Some gerr) =>
          Some (inr (errorString ("failed to find package: " +:+ gerr)), st')
      end
  end.
Proof.
  unfold loadDep. cbv zeta. rewrite bind_run, VLog_run.
  destruct (FindPackageInDir Package.zero (GoPath.Join [pkgdir; _]))
    as [cpkg [lerr|]]; [|done].
  rewrite bind_run, VLog_run, add_lines_app.
  replace (vlines env [_] ++ vlines env [_]) with
    (vlines env [fetching_line dep;
                 global_line (GoPath.Join [globalPath env; Dependency.Hash dep])])
    by (unfold vlines; by destruct (Verbose env)).
  by destruct (FindPackageInDir cpkg (GoPath.Join [globalPath env; _]))
    as [cpkg' [gerr|]].
Qed.

Lemma loadDep_tbl dep pkgdir st r st' :
  loadDep env FindPackageInDir dep pkgdir st = Some (r, st') ->
  tbl st' = tbl st.
Proof.
  rewrite loadDep_run. cbv zeta.
  repeat case_match; by intros [= _ <-].
Qed.

End Loader.

(** C4, as stated, fails in its last part: when both lookups fail the
    error of [loadDep] wraps the error of the global lookup alone.  The
    local directory that was tried first and the name of the dependency
    are not in it (and nothing is logged unless [Verbose] is set). *)
Lemma loadDep_error_drops_local_attempt :
  let local := GoPath.Join [Fixture.pkgdir; "QmX"] in
  let msg :=
    "failed to find package: no package found in hashdir: /go/src/gx/ipfs/QmX" in
  local = "/go/src/github.com/me/proj/vendor/gx/ipfs/QmX" /\
  Fixture.cache Package.zero local
  = (Package.zero, Some ("no package found in hashdir: " +:+ local)) /\
  loadDep Fixture.env Fixture.cache Fixture.gone Fixture.pkgdir Fixture.empty
  = Some (inr (errorString msg), Fixture.empty) /\
  Contains msg local = false /\
  Contains msg (Dependency.Name Fixture.gone) = false.
Proof. repeat split; reflexivity. Qed.

(** C4, amended. [loadDep] first looks under [pkgdir/<hash>]; when that
    fails, whatever the failure, it looks under the global cache
    directory [<gopath>/src/gx/ipfs/<hash>]; a lookup that succeeds at
    either place makes [loadDep] succeed.  Both lookups decode into the
    same struct: the package returned after a failed local lookup is
    what the global lookup makes of the struct the local one left, the
    descriptor in the cache alone when the local lookup left the struct
    empty.  When both lookups fail, the error is
    [failed to find package: ] followed by the text of the global
    lookup's error only.  The table is never touched; with [Verbose] set
    one line names the dependency and its hash and, before the second
    lookup, one names the global directory. *)
Theorem loadDep_two_tier env FindPackageInDir dep pkgdir st :
  let pdir := GoPath.Join [pkgdir; Dependency.Hash dep] in
  let gdir := GoPath.Join [globalPath env; Dependency.Hash dep] in
  let st1 := add_lines st (vlines env [fetching_line dep]) in
  let st2 := add_lines st (vlines env [fetching_line dep; global_line gdir]) in
  (forall cpkg,
      FindPackageInDir Package.zero pdir = (cpkg, None) ->
      loadDep env FindPackageInDir dep pkgdir st = Some (inl cpkg, st1)) /\
  (forall left lerr cpkg,
      FindPackageInDir Package.zero pdir = (left, Some lerr) ->
      FindPackageInDir left gdir = (cpkg, None) ->
      loadDep env FindPackageInDir dep pkgdir st = Some (inl cpkg, st2)) /\
  (forall left lerr left' gerr,
      FindPackageInDir Package.zero pdir = (left, Some lerr) ->
      FindPackageInDir left gdir = (left', Some gerr) ->
      loadDep env FindPackageInDir dep pkgdir st =
      Some (inr (errorString ("failed to find package: " +:+ gerr)), st2)) /\
  globalPath env = GoPath.Join [(getGoPath env).1; "src"; "gx"; "ipfs"].
Proof.
  cbv zeta. rewrite loadDep_run. cbv zeta. repeat split.
  - by intros cpkg ->.
  - by intros left lerr cpkg -> ->.
  - by intros left lerr left' gerr -> ->.
  - unfold globalPath. by destruct (getGoPath env).
Qed.

Lemma loadDep_two_tier_witness :
  loadDep Fixture.env Fixture.cache Fixture.cached Fixture.pkgdir Fixture.empty
  = Some (inl (Fixture.leaf "cached" "github.com/x/cached"), Fixture.empty) /\
  loadDep Fixture.env Fixture.cache Fixture.gone Fixture.pkgdir Fixture.empty
  = Some (inr (errorString
                 ("failed to find package: " +:+
                  "no package found in hashdir: /go/src/gx/ipfs/QmX")),
          Fixture.empty) /\
  loadDep Fixture.env Fixture.half_decoded Fixture.torn Fixture.pkgdir
          Fixture.empty
  = Some (inl (Fixture.leaf "from-vendor" "github.com/x/b"), Fixture.empty).
Proof.
  pose proof (loadDep_two_tier Fixture.env Fixture.cache Fixture.cached
                               Fixture.pkgdir Fixture.empty)
    as (_ & Hglobal & _).
  pose proof (loadDep_two_tier Fixture.env Fixture.cache Fixture.gone
                               Fixture.pkgdir Fixture.empty)
    as (_ & _ & Hnone & _).
  pose proof (loadDep_two_tier Fixture.env Fixture.half_decoded Fixture.torn
                               Fixture.pkgdir Fixture.empty)
    as (_ & Hmerged & _).
  split; [|split].
  - exact (Hglobal _ _ _ eq_refl eq_refl).
  - exact (Hnone _ _ _ _ eq_refl eq_refl).
  - exact (Hmerged _ _ _ eq_refl eq_refl).
Defined.

(** ** The Rewrite Table Builder *)

#[local] Instance keeps_keys_preorder : PreOrder keeps_keys.
Proof. unfold keeps_keys. split; [by intros st | intros x y z ??; set_solver]. Qed.

#[local] Instance keeps_entries_preorder : PreOrder keeps_entries.
Proof.
  unfold keeps_entries. split; [by intros st|].
  intros x y z ??. by etrans.
Qed.

#[local] Instance logs_loader_lines_preorder env : PreOrder (logs_loader_lines env).
Proof.
  split.
  - intros st. exists []. by rewrite app_nil_r.
  - intros x y z (e1 & H1 & F1 & V1) (e2 & H2 & F2 & V2).
    exists (e1 ++ e2). rewrite H2, H1, (assoc_L (++)). split; [done|].
    split; [by apply Forall_app|].
    intros Hv. by rewrite V1, V2.
Qed.

Section Builder.

Variable env : Env.
Variable FindPackageInDir :
  Package.t -> string -> Package.t * option string.

#[local] Abbreviation load := (loadDep env FindPackageInDir).
#[local] Abbreviation build := (buildRewriteMapping env FindPackageInDir).
#[local] Abbreviation build_edge :=
  (buildRewriteMapping_edge env FindPackageInDir).

Lemma addRewriteForDep_run dep child undo st :
  addRewriteForDep dep child undo st =
  if bool_decide (GoInfo.DvcsImport (Package.Gx child) = EmptyString)
  then Some (tt, st)
  else Some (tt, mkState (<[(edge_entry undo dep child).1 :=
                              (edge_entry undo dep child).2]> (tbl st))
                         (logged st)).
Proof.
  unfold addRewriteForDep, edge_entry, gx_path.
  destruct (bool_decide _); [done|]. by destruct undo.
Qed.

Lemma buildRewriteMapping_edge_run recur pkg pkgdir undo dep st :
  build_edge recur pkg pkgdir undo dep st =
  match load dep pkgdir st with
  | None => None
  | Some (inr err, st1) =>
      Some (Some (loadingDepError (Dependency.Name dep) (Package.Name pkg) err),
            st1)
  | Some (inl cpkg, st1) =>
      match addRewriteForDep dep cpkg undo st1 with
      | None => None
      | Some (_, st2) => recur cpkg st2
      end
  end.
Proof.
  unfold buildRewriteMapping_edge. rewrite bind_run.
  destruct (load dep pkgdir st) as [[[cpkg|err] st1]|]; [|done..].
  by rewrite bind_run.
Qed.

Lemma buildRewriteMapping_S depth pkg pkgdir undo :
  build (S depth) pkg pkgdir undo =
  range_deps
    (build_edge
       (fun cpkg => build depth cpkg pkgdir undo)
       pkg pkgdir undo)
    (Package.Dependencies pkg).
Proof. reflexivity. Qed.

Lemma buildRewriteMapping_loop_eq depth pkg pkgdir undo deps :
  buildRewriteMapping_loop env FindPackageInDir depth pkg pkgdir undo deps =
  range_deps (build_edge (fun cpkg => build depth cpkg pkgdir undo)
                         pkg pkgdir undo) deps.
Proof. reflexivity. Qed.

(** What the loader and the insertion preserve, one edge preserves when
    the recursive call does, and so does the whole traversal. *)
Section Preserved.

Variable R : relation state.
Context `{!PreOrder R}.
Hypothesis Hload : forall dep pkgdir, preserves R (load dep pkgdir).
Hypothesis Hadd :
  forall dep child undo, preserves R (addRewriteForDep dep child undo).

Lemma buildRewriteMapping_edge_preserves recur pkg pkgdir undo dep :
  (forall cpkg, preserves R (recur cpkg)) ->
  preserves R (build_edge recur pkg pkgdir undo dep).
Proof.
  intros Hrecur st r st'. rewrite buildRewriteMapping_edge_run.
  destruct (load dep pkgdir st) as [[[cpkg|err] st1]|] eqn:El; [| |done].
  - destruct (addRewriteForDep dep cpkg undo st1) as [[[] st2]|] eqn:Ea;
      [|done].
    intros Hrec. etrans; [by eapply Hload|].
    etrans; [by eapply Hadd | by eapply Hrecur].
  - intros [= _ <-]. by eapply Hload.
Qed.

Lemma buildRewriteMapping_preserves depth pkg pkgdir undo :
  preserves R (build depth pkg pkgdir undo).
Proof.
  revert pkg. induction depth as [|depth IH]; intros pkg; [by intros st r st'|].
  rewrite buildRewriteMapping_S.
  apply range_deps_preserves; [done|]. intros dep.
  by apply buildRewriteMapping_edge_preserves.
Qed.

Lemma buildRewriteMapping_loop_preserves depth pkg pkgdir undo deps :
  preserves R (buildRewriteMapping_loop env FindPackageInDir depth pkg pkgdir
                                        undo deps).
Proof.
  rewrite buildRewriteMapping_loop_eq.
  apply range_deps_preserves; [done|]. intros dep.
  apply buildRewriteMapping_edge_preserves. intros cpkg.
  apply buildRewriteMapping_preserves.
Qed.

End Preserved.

Lemma loadDep_keeps_keys dep pkgdir : preserves keeps_keys (load dep pkgdir).
Proof.
  intros st r st' Hrun. unfold keeps_keys.
  by rewrite (loadDep_tbl _ _ _ _ _ _ _ Hrun).
Qed.

Lemma addRewriteForDep_keeps_keys dep child undo :
  preserves keeps_keys (addRewriteForDep dep child undo).
Proof.
  intros st [] st'. rewrite addRewriteForDep_run. unfold keeps_keys.
  case_bool_decide; intros [= <-]; [done|]. simpl.
  rewrite dom_insert_L. set_solver.
Qed.

Lemma buildRewriteMapping_keeps_keys depth pkg pkgdir undo :
  preserves keeps_keys (build depth pkg pkgdir undo).
Proof.
  apply buildRewriteMapping_preserves;
    [apply _ | apply loadDep_keeps_keys | apply addRewriteForDep_keeps_keys].
Qed.

Lemma buildRewriteMapping_loop_keeps_keys depth pkg pkgdir undo deps :
  preserves keeps_keys
            (buildRewriteMapping_loop env FindPackageInDir depth pkg pkgdir
                                      undo deps).
Proof.
  apply buildRewriteMapping_loop_preserves;
    [apply _ | apply loadDep_keeps_keys | apply addRewriteForDep_keeps_keys].
Qed.




End Builder.

(** ** Termination of the traversal *)

Section Termination.

Variable env : Env.
Variable FindPackageInDir :
  Package.t -> string -> Package.t * option string.

#[local] Abbreviation run := (buildRewriteMapping env FindPackageInDir).

Lemma range_deps_mono (b1 b2 : Dependency.t -> act (option error)) deps :
  (forall dep st res, dep ∈ deps -> b1 dep st = Some res -> b2 dep st = Some res) ->
  forall st res,
    range_deps b1 deps st = Some res -> range_deps b2 deps st = Some res.
Proof.
  induction deps as [|dep deps IH]; intros Hb st res; [done|].
  rewrite !range_deps_cons.
  destruct (b1 dep st) as [[r st1]|] eqn:E1; [|done].
  rewrite (Hb dep st (r, st1)); [|by left|done].
  destruct r; [done|]. apply IH. intros dep' st' res' Hin.
  apply Hb. by right.
Qed.

(** A deeper bound on the recursion does not change what a run returns. *)
Lemma buildRewriteMapping_depth_mono d d' pkg pkgdir undo st res :
  (d <= d')%nat ->
  run d pkg pkgdir undo st = Some res ->
  run d' pkg pkgdir undo st = Some res.
Proof.
  revert d' pkg st res.
  induction d as [|d IH]; intros d' pkg st res Hle; [done|].
  destruct d' as [|d']; [lia|].
  rewrite !buildRewriteMapping_S. apply range_deps_mono.
  intros dep st0 res0 _. rewrite !buildRewriteMapping_edge_run.
  destruct (loadDep _ _ dep pkgdir st0) as [[[cpkg|err] st1]|]; [|done..].
  destruct (addRewriteForDep dep cpkg undo st1) as [[[] st2]|]; [|done].
  apply IH. lia.
Qed.

Lemma range_deps_returns (body : Dependency.t -> act (option error)) deps :
  (forall dep st, dep ∈ deps -> is_Some (body dep st)) ->
  forall st, is_Some (range_deps body deps st).
Proof.
  induction deps as [|dep deps IH]; intros Hbody st; [by eexists|].
  rewrite range_deps_cons.
  destruct (Hbody dep st) as [[[err|] st1] ->]; [by left|by eexists|].
  apply IH. intros dep' st' Hin. apply Hbody. by right.
Qed.

(** On a dependency tree of depth at most [n] the traversal returns, with
    a table or with an error, when given [n] nested calls. *)
Lemma buildRewriteMapping_returns n pkg pkgdir undo st :
  depth_within env FindPackageInDir pkgdir n pkg ->
  is_Some (run n pkg pkgdir undo st).
Proof.
  intros Hdepth. revert st.
  induction Hdepth as [n pkg _ IH]; intros st.
  rewrite buildRewriteMapping_S. apply range_deps_returns.
  intros dep st0 Hin. rewrite buildRewriteMapping_edge_run.
  destruct (loadDep _ _ dep pkgdir st0) as [[[cpkg|err] st1]|] eqn:Hload.
  - rewrite addRewriteForDep_run. case_bool_decide; by eapply IH.
  - by eexists.
  - rewrite loadDep_run in Hload. cbv zeta in Hload.
    by repeat case_match.
Qed.

End Termination.


(** C10. [buildRewriteMapping] is not atomic on failure.  When the edges
    before [dep] went through and [dep] fails to load, the call returns
    the error together with the table as those edges left it; when the
    failure comes from inside the subtree of [dep], the call returns the
    table as the failing recursive call left it.  In both cases no key of
    the table handed in is lost, and the entry of an earlier sibling is
    in the table that comes back with the error. *)
Theorem buildRewriteMapping_not_atomic :
  (forall env FindPackageInDir d pkg pkgdir undo pre dep post st st1 st2 err,
      Package.Dependencies pkg = pre ++ dep :: post ->
      buildRewriteMapping_loop env FindPackageInDir d pkg pkgdir undo pre st
      = Some (None, st1) ->
      loadDep env FindPackageInDir dep pkgdir st1 = Some (inr err, st2) ->
      buildRewriteMapping env FindPackageInDir (S d) pkg pkgdir undo st
      = Some (Some (loadingDepError (Dependency.Name dep) (Package.Name pkg) err),
              st2) /\
      tbl st2 = tbl st1 /\ keeps_keys st st2) /\
  (forall env FindPackageInDir d pkg pkgdir undo pre dep post
          st st1 st2 st3 st4 child err,
      Package.Dependencies pkg = pre ++ dep :: post ->
      buildRewriteMapping_loop env FindPackageInDir d pkg pkgdir undo pre st
      = Some (None, st1) ->
      loadDep env FindPackageInDir dep pkgdir st1 = Some (inl child, st2) ->
      addRewriteForDep dep child undo st2 = Some (tt, st3) ->
      buildRewriteMapping env FindPackageInDir d child pkgdir undo st3
      = Some (Some err, st4) ->
      buildRewriteMapping env FindPackageInDir (S d) pkg pkgdir undo st
      = Some (Some err, st4) /\
      keeps_keys st st4) /\
  buildRewriteMapping Fixture.env Fixture.cache 2 Fixture.broken Fixture.pkgdir
                      false Fixture.empty
  = Some (Some (loadingDepError
                  "gone" "broken"
                  (errorString
                     "failed to find package: no package found in hashdir: /go/src/gx/ipfs/QmX")),
          mkState {[ "github.com/x/y" := "gx/ipfs/Qm123/y" ]} []).
Proof.
  split; [|split; [|reflexivity]].
  - intros env FindPackageInDir d pkg pkgdir undo pre dep post st st1 st2 err
           Hdeps Hpre Hload.
    assert (buildRewriteMapping env FindPackageInDir (S d) pkg pkgdir undo st
            = Some (Some (loadingDepError (Dependency.Name dep)
                                          (Package.Name pkg) err), st2))
      as Hrun.
    { rewrite buildRewriteMapping_S, Hdeps, range_deps_app.
      rewrite buildRewriteMapping_loop_eq in Hpre. rewrite Hpre.
      by rewrite range_deps_cons, buildRewriteMapping_edge_run, Hload. }
    split; [done|]. split; [by eapply loadDep_tbl|].
    by eapply buildRewriteMapping_keeps_keys.
  - intros env FindPackageInDir d pkg pkgdir undo pre dep post
           st st1 st2 st3 st4 child err Hdeps Hpre Hload Hadd Hrec.
    assert (buildRewriteMapping env FindPackageInDir (S d) pkg pkgdir undo st
            = Some (Some err, st4)) as Hrun.
    { rewrite buildRewriteMapping_S, Hdeps, range_deps_app.
      rewrite buildRewriteMapping_loop_eq in Hpre. rewrite Hpre.
      by rewrite range_deps_cons, buildRewriteMapping_edge_run, Hload, Hadd,
                 Hrec. }
    split; [done|]. by eapply buildRewriteMapping_keeps_keys.
Qed.

Lemma buildRewriteMapping_not_atomic_witness :
  let st1 := mkState {[ "github.com/x/y" := "gx/ipfs/Qm123/y" ]} [] in
  buildRewriteMapping Fixture.env Fixture.cache 2 Fixture.broken Fixture.pkgdir
                      false Fixture.empty
  = Some (Some (loadingDepError
                  "gone" "broken"
                  (errorString
                     "failed to find package: no package found in hashdir: /go/src/gx/ipfs/QmX")),
          st1) /\
  tbl st1 = tbl st1 /\ keeps_keys Fixture.empty st1.
Proof.
  exact (proj1 buildRewriteMapping_not_atomic
               Fixture.env Fixture.cache 1%nat Fixture.broken Fixture.pkgdir
               false [Dependency.mk "y" "Qm123"] Fixture.gone []
               Fixture.empty
               (mkState {[ "github.com/x/y" := "gx/ipfs/Qm123/y" ]} [])
               (mkState {[ "github.com/x/y" := "gx/ipfs/Qm123/y" ]} [])
               _ eq_refl eq_refl eq_refl).
Defined.

(** ** The dependency map of [dep-map] *)

Section DepMap.

Variable FindPackageInDir :
  Package.t -> string -> Package.t * option string.

#[local] Abbreviation edge := (buildMap_edge FindPackageInDir).

(** The edge of [buildMap], case by case. *)
Lemma buildMap_edge_run recur dep st :
  edge recur dep st =
  match FindPackageInDir Package.zero
                         (GoPath.Join [vendorDir; Dependency.Hash dep]) with
  | (_, Some err) => Some (Some (errorString err), st)
  | (ch, None) =>
      let imp := GoInfo.DvcsImport (Package.Gx ch) in
      if bool_decide (imp = EmptyString) then recur ch st
      else match tbl st !! imp with
           | Some e =>
               if bool_decide (e = Dependency.Hash dep) then Some (None, st)
               else Some (None, add_lines st (conflict_lines
                                                imp e (Dependency.Hash dep)))
           | None =>
               recur ch (mkState (<[imp := Dependency.Hash dep]> (tbl st))
                                 (logged st))
           end
  end.
Proof.
  unfold buildMap_edge. cbv zeta.
  destruct (FindPackageInDir _ _) as [ch [err|]]; [done|].
  case_bool_decide; [done|]. cbn [negb].
  rewrite bind_run. unfold map_get.
  destruct (tbl st !! _) as [e|]; [|done].
  case_bool_decide; [done|]. cbn [negb].
  rewrite bind_run, !bind_Log_run, Log_run, !add_lines_app.
  reflexivity.
Qed.

Lemma buildMap_edge_keeps_entries recur dep :
  (forall ch, preserves keeps_entries (recur ch)) ->
  preserves keeps_entries (edge recur dep).
Proof.
  intros Hrecur st r st'. rewrite buildMap_edge_run.
  destruct (FindPackageInDir _ _) as [ch [err|]]; [by intros [= _ <-]|].
  cbv zeta. case_bool_decide; [by apply Hrecur|].
  destruct (tbl st !! _) as [e|] eqn:He.
  - case_bool_decide; intros [= _ <-]; by unfold keeps_entries.
  - intros Hrun. etrans; [|by eapply Hrecur].
    unfold keeps_entries. cbn [tbl]. by apply insert_subseteq.
Qed.

(** [buildMap] never changes an entry of the table: the mapping seen
    first for an import path is the one that stays. *)
Lemma buildMap_keeps_entries depth pkg :
  preserves keeps_entries (buildMap FindPackageInDir depth pkg).
Proof.
  revert pkg. induction depth as [|depth IH]; intros pkg; [by intros st r st'|].
  apply range_deps_preserves; [apply _|]. intros dep.
  by apply buildMap_edge_keeps_entries.
Qed.

End DepMap.




(** ** The Rewrite Applier *)

Section Applier.
Import GoStrings.

Implicit Types (mapping : gmap string string) (order : list (string * string)).

Lemma rwm_range_None s order :
  rwm_range s order = None <-> Forall (no_match s) order.
Proof.
  induction order as [|[k v] order IH]; simpl; [by split|].
  rewrite Forall_cons. unfold no_match at 1. simpl.
  destruct (HasPrefix s (k +:+ "/")); [|tauto].
  split; [done | by intros [? _]].
Qed.

Lemma rwm_range_first s before k v after :
  Forall (no_match s) before ->
  HasPrefix s (k +:+ "/") = true ->
  rwm_range s (before ++ (k, v) :: after) = Some (Replace1 s k v).
Proof.
  intros Hbefore Hk.
  induction Hbefore as [|[k' v'] before Hno _ IH]; simpl.
  - by rewrite Hk.
  - unfold no_match in Hno. simpl in Hno. by rewrite Hno.
Qed.

(** The entry the loop stops at: the first one that matches. *)
Lemma rwm_range_Some s order r :
  rwm_range s order = Some r ->
  exists before k v after,
    order = before ++ (k, v) :: after /\
    Forall (no_match s) before /\
    HasPrefix s (k +:+ "/") = true /\
    r = Replace1 s k v.
Proof.
  induction order as [|[k v] order IH]; simpl; [done|].
  destruct (HasPrefix s (k +:+ "/")) eqn:Hk.
  - intros [= <-]. by exists [], k, v, order.
  - intros (before & k' & v' & after & -> & Hno & Hk' & ->)%IH.
    exists ((k, v) :: before), k', v', after.
    split; [done|]. split; [by constructor|done].
Qed.

(** The rewritten path: the value of the key, then the rest of [s]. *)
Lemma Replace1_key s k v :
  HasPrefix s (k +:+ "/") = true ->
  Replace1 s k v = v +:+ slice_from s (len k).
Proof. intros Hk. apply Replace1_prefix. by eapply HasPrefix_app_l. Qed.

Lemma slice_from_key k rest :
  slice_from (k +:+ "/" +:+ rest) (len k) = "/" +:+ rest.
Proof. apply slice_from_app. Qed.

(** A lookup adds at most the entry of its argument. *)
Lemma rwm_keeps order mapping s : mapping ⊆ (rwm order mapping s).2.
Proof.
  unfold rwm. destruct (mapping !! s) eqn:Hs; [done|].
  destruct (rwm_range s order); simpl; by apply insert_subseteq.
Qed.

Lemma rwm_all_keeps queries mapping : mapping ⊆ rwm_all queries mapping.
Proof.
  revert mapping. unfold rwm_all.
  induction queries as [|[order s] queries IH]; intros mapping; [done|].
  simpl. etrans; [apply (rwm_keeps order mapping s) | apply IH].
Qed.

Lemma rwm_exact order mapping s v :
  mapping !! s = Some v -> rwm order mapping s = (v, mapping).
Proof. intros Hs. unfold rwm. by rewrite Hs. Qed.

End Applier.

(** C1, as stated, fails: of the keys [a] and [a/b], both of which start
    [a/b/c] when followed by a slash, the loop takes the one the iteration
    yields first; when that is [a], the lookup returns [X/b/c], not the
    rewriting [Y/c] by the longest key. *)
Lemma rwm_shorter_key_first :
  let order := [("a", "X"); ("a/b", "Y")] in
  let s := "a/b/c" in
  order ≡ₚ map_to_list Fixture.nested /\
  Fixture.nested !! s = None /\
  Fixture.nested !! "a/b" = Some "Y" /\
  s = "a/b" +:+ "/" +:+ "c" /\
  (forall k, is_Some (Fixture.nested !! k) ->
             GoStrings.HasPrefix s (k +:+ "/") = true ->
             (GoStrings.len k <= GoStrings.len "a/b")%nat) /\
  rwm order Fixture.nested s = ("X/b/c", <[s := "X/b/c"]> Fixture.nested) /\
  "X/b/c" <> "Y" +:+ GoStrings.slice_from s (GoStrings.len "a/b").
Proof.
  assert (map_to_list Fixture.nested = [("a/b", "Y"); ("a", "X")]) as Hlist
      by reflexivity.
  intros order s.
  split; [|split; [|split; [|split; [|split; [|split]]]]].
  - rewrite Hlist. apply perm_swap.
  - reflexivity.
  - reflexivity.
  - reflexivity.
  - intros k [v Hk] _.
    apply elem_of_map_to_list in Hk. rewrite Hlist in Hk.
    set_unfold. destruct Hk as [[= -> _]|[[= -> _]|[]]]; simpl; lia.
  - reflexivity.
  - discriminate.
Qed.

(** C1, amended. For a path [s] that is no key of the table while some
    key, followed by a slash, starts [s]: the lookup returns
    [value(k) + s[len(k):]] for the first such key [k] in the order in
    which the iteration over the map yields the entries (any of these
    keys can be that one, the longest or not), and caches the result
    under [s].  When [k] is the only such key, so for [(k -> v)] in the
    table and [s = k + "/" + rest], the lookup returns [v + "/" + rest]. *)
Theorem rwm_first_matching_key mapping order s :
  order ≡ₚ map_to_list mapping ->
  mapping !! s = None ->
  (exists k, is_Some (mapping !! k) /\
             GoStrings.HasPrefix s (k +:+ "/") = true) ->
  (exists before k v after,
      order = before ++ (k, v) :: after /\
      Forall (no_match s) before /\
      mapping !! k = Some v /\
      GoStrings.HasPrefix s (k +:+ "/") = true /\
      let r := v +:+ GoStrings.slice_from s (GoStrings.len k) in
      rwm order mapping s = (r, <[s := r]> mapping)) /\
  (forall k v rest,
      mapping !! k = Some v ->
      s = k +:+ "/" +:+ rest ->
      (forall k', is_Some (mapping !! k') ->
                  GoStrings.HasPrefix s (k' +:+ "/") = true -> k' = k) ->
      let r := v +:+ "/" +:+ rest in
      rwm order mapping s = (r, <[s := r]> mapping)) /\
  (forall k v,
      mapping !! k = Some v ->
      GoStrings.HasPrefix s (k +:+ "/") = true ->
      exists order',
        order' ≡ₚ map_to_list mapping /\
        let r := v +:+ GoStrings.slice_from s (GoStrings.len k) in
        rwm order' mapping s = (r, <[s := r]> mapping)).
Proof.
  intros Hperm Hs (k0 & [v0 Hk0] & Hmatch0).
  assert (forall k v, (k, v) ∈ order <-> mapping !! k = Some v) as Hin.
  { intros k v. by rewrite Hperm, elem_of_map_to_list. }
  destruct (rwm_range s order) as [r|] eqn:Hrange.
  2:{ apply rwm_range_None in Hrange.
      apply (proj2 (Hin k0 v0)) in Hk0.
      rewrite Forall_forall in Hrange. specialize (Hrange _ Hk0).
      unfold no_match in Hrange. simpl in Hrange. congruence. }
  destruct (rwm_range_Some _ _ _ Hrange)
    as (before & k & v & after & Horder & Hno & Hk & ->).
  assert (mapping !! k = Some v) as Hkv.
  { apply Hin. rewrite Horder, elem_of_app. right. by left. }
  assert (rwm order mapping s =
          (v +:+ GoStrings.slice_from s (GoStrings.len k),
           <[s := v +:+ GoStrings.slice_from s (GoStrings.len k)]> mapping))
    as Hrun.
  { unfold rwm. by rewrite Hs, Hrange, Replace1_key. }
  split; [|split].
  - by exists before, k, v, after.
  - intros k1 v1 rest Hk1 Hrest Honly. cbv zeta.
    assert (k = k1) as -> by (apply Honly; [by eexists | done]).
    assert (v = v1) as -> by congruence.
    rewrite Hrun. by rewrite Hrest, slice_from_key.
  - intros k1 v1 Hk1 Hmatch1.
    destruct (proj1 (elem_of_Permutation (map_to_list mapping) (k1, v1)))
      as [rest Hrest]; [by apply elem_of_map_to_list|].
    exists ((k1, v1) :: rest). split; [done|]. cbv zeta.
    unfold rwm. rewrite Hs. simpl. by rewrite Hmatch1, Replace1_key.
Qed.

Lemma rwm_first_matching_key_witness :
  rwm [("a", "X"); ("a/b", "Y")] Fixture.nested "a/c"
  = ("X/c", <["a/c" := "X/c"]> Fixture.nested).
Proof.
  assert (map_to_list Fixture.nested = [("a/b", "Y"); ("a", "X")]) as Hlist
      by reflexivity.
  refine (proj1 (proj2 (rwm_first_matching_key
                          Fixture.nested [("a", "X"); ("a/b", "Y")] "a/c"
                          _ eq_refl _))
                "a" "X" "c" eq_refl eq_refl _).
  - rewrite Hlist. apply perm_swap.
  - exists "a". split; [by exists "X" | reflexivity].
  - intros k [v Hk] Hmatch.
    apply elem_of_map_to_list in Hk. rewrite Hlist in Hk.
    set_unfold. destruct Hk as [[= -> _]|[[= -> _]|[]]]; [discriminate | done].
Defined.

(** C7. For a path [s] that is no key of the table and that no key,
    followed by a slash, starts: the lookup returns [s] and caches the
    entry [(s -> s)]; after that, whatever lookups come in between, every
    lookup of [s] finds that entry, returns [s] and leaves the table as it
    is. *)
Theorem rwm_identity mapping order s :
  order ≡ₚ map_to_list mapping ->
  mapping !! s = None ->
  (forall k, is_Some (mapping !! k) ->
             GoStrings.HasPrefix s (k +:+ "/") = false) ->
  rwm order mapping s = (s, <[s := s]> mapping) /\
  forall queries order',
    let later := rwm_all queries (<[s := s]> mapping) in
    later !! s = Some s /\ rwm order' later s = (s, later).
Proof.
  intros Hperm Hs Hnone.
  assert (rwm_range s order = None) as Hrange.
  { apply rwm_range_None, Forall_forall. intros [k v] Hin.
    rewrite Hperm, elem_of_map_to_list in Hin.
    apply Hnone. by eexists. }
  split.
  - unfold rwm. by rewrite Hs, Hrange.
  - intros queries order' later.
    assert (later !! s = Some s) as Hlater.
    { eapply lookup_weaken; [|apply rwm_all_keeps]. apply lookup_insert_eq. }
    split; [done|]. by apply rwm_exact.
Qed.

Lemma rwm_identity_witness :
  rwm (map_to_list Fixture.nested) Fixture.nested "fmt"
  = ("fmt", <["fmt" := "fmt"]> Fixture.nested) /\
  rwm [] (rwm_all [([], "a/x"); ([], "os")] (<["fmt" := "fmt"]> Fixture.nested))
      "fmt"
  = ("fmt", rwm_all [([], "a/x"); ([], "os")] (<["fmt" := "fmt"]> Fixture.nested)).
Proof.
  assert (forall k, is_Some (Fixture.nested !! k) ->
                    GoStrings.HasPrefix "fmt" (k +:+ "/") = false) as Hnone.
  { intros k [v Hk].
    apply elem_of_map_to_list in Hk.
    change (map_to_list Fixture.nested) with [("a/b", "Y"); ("a", "X")] in Hk.
    set_unfold. by destruct Hk as [[= -> _]|[[= -> _]|[]]]. }
  destruct (rwm_identity Fixture.nested (map_to_list Fixture.nested) "fmt"
                         (reflexivity _) eq_refl Hnone) as [Hfirst Hlater].
  split; [exact Hfirst|].
  exact (proj2 (Hlater [([], "a/x"); ([], "os")] [])).
Defined.

(** * Further properties of [main.go] *)

(** ** More on the version comparison *)

Section VersionComparisonMore.

(** Every run of the loop returns, and with an error only together with
    [false]. *)
Lemma versionComp_range_result front rp hp :
  (length hp <= length rp)%nat ->
  exists b e,
    versionComp_range (front ++ rp) (length front) hp = Some (b, e) /\
    (e <> None -> b = false).
Proof.
  revert front rp. induction hp as [|v hp IH]; intros front rp Hlen.
  - by exists false, None.
  - destruct rp as [|r rp]; [simpl in Hlen; lia|].
    rewrite versionComp_range_here.
    destruct (Strconv.Atoi v) as [hv|e]; [|by exists false, (Some e)].
    destruct (Strconv.Atoi r) as [rv|e]; [|by exists false, (Some e)].
    destruct (hv <? rv); [by exists true, None|].
    destruct (hv >? rv); [by exists false, None|].
    specialize (IH (front ++ [r]) rp).
    rewrite length_app, <- (assoc_L (++)), Nat.add_1_r in IH.
    apply IH. simpl in Hlen. lia.
Qed.

(** A sequence compared with itself is never less. *)
Lemma versionComp_range_self front l :
  exists e, versionComp_range (front ++ l) (length front) l = Some (false, e).
Proof.
  revert front. induction l as [|v l IH]; intros front.
  - by exists None.
  - rewrite versionComp_range_here.
    destruct (Strconv.Atoi v) as [hv|e]; [|by exists (Some e)].
    rewrite Z.ltb_irrefl, Z.gtb_ltb, Z.ltb_irrefl.
    specialize (IH (front ++ [v])).
    by rewrite length_app, <- (assoc_L (++)), Nat.add_1_r in IH.
Qed.

Lemma retained_prefix_l (hp k : list string) :
  take (min (length hp) (length (hp ++ k))) hp = hp /\
  take (min (length hp) (length (hp ++ k))) (hp ++ k) = hp.
Proof.
  rewrite min_is_min, length_app, Nat.min_l by lia.
  split; [by rewrite take_ge | by rewrite take_app_length].
Qed.

Lemma retained_prefix_r (rp k : list string) :
  take (min (length (rp ++ k)) (length rp)) (rp ++ k) = rp /\
  take (min (length (rp ++ k)) (length rp)) rp = rp.
Proof.
  rewrite min_is_min, length_app, Nat.min_r by lia.
  split; [by rewrite take_app_length | by rewrite take_ge].
Qed.

(** The loop the other way round, after it said [true]. *)
Lemma versionComp_range_asym fronth frontr hp rp :
  length hp = length rp ->
  versionComp_range (frontr ++ rp) (length frontr) hp = Some (true, None) ->
  versionComp_range (fronth ++ hp) (length fronth) rp = Some (false, None).
Proof.
  revert fronth frontr rp.
  induction hp as [|v hp IH]; intros fronth frontr rp Hlen; [done|].
  destruct rp as [|r rp]; [done|].
  rewrite !versionComp_range_here.
  destruct (Strconv.Atoi v) as [hv|e]; [|done].
  destruct (Strconv.Atoi r) as [rv|e]; [|done].
  rewrite !Z.gtb_ltb.
  destruct (Z.ltb_spec hv rv), (Z.ltb_spec rv hv); try done; try lia.
  intros Hrun.
  specialize (IH (fronth ++ [v]) (frontr ++ [r]) rp).
  rewrite !length_app, <- !(assoc_L (++)), !Nat.add_1_r in IH.
  apply IH; [simpl in Hlen; lia | done].
Qed.

End VersionComparisonMore.

(** X1. [versionComp] never panics: the index [rp[i]] is in range for
    all inputs, a result is always returned, and an error is only ever
    returned together with [false]. *)
Theorem versionComp_never_panics have req :
  exists b e, versionComp have req = Some (b, e) /\ (e <> None -> b = false).
Proof.
  rewrite versionComp_retained.
  apply (versionComp_range_result [] _ _).
  by rewrite retained_lengths.
Qed.

(** X2. When the dot-separated components of one version string are the
    first components of the other (so also when the strings are equal),
    [versionComp] does not report [have] as older: the boolean is
    [false], whatever the extra components are. *)
Theorem versionComp_extension_not_less have req :
  one_extends (GoStrings.Split have ".") (GoStrings.Split req ".") ->
  exists e, versionComp have req = Some (false, e).
Proof.
  intros [[k Hk]|[k Hk]]; unfold versionComp; cbv zeta; rewrite Hk.
  - destruct (retained_prefix_l (GoStrings.Split have ".") k) as [-> ->].
    apply (versionComp_range_self []).
  - destruct (retained_prefix_r (GoStrings.Split req ".") k) as [-> ->].
    apply (versionComp_range_self []).
Qed.

Lemma versionComp_extension_not_less_witness :
  exists e, versionComp "1.4.2" "1.4" = Some (false, e).
Proof.
  apply (versionComp_extension_not_less "1.4.2" "1.4").
  right. by exists ["2"].
Defined.

(** X3. [versionComp] is asymmetric: when it reports [have] older than
    [req], it reports [req] not older than [have], without error. *)
Theorem versionComp_asymmetric have req :
  versionComp have req = Some (true, None) ->
  versionComp req have = Some (false, None).
Proof.
  rewrite !versionComp_retained.
  assert (retained req have = ((retained have req).2, (retained have req).1))
    as ->.
  { unfold retained. cbv zeta. simpl. by rewrite !min_is_min, Nat.min_comm. }
  simpl. apply (versionComp_range_asym [] []), retained_lengths.
Qed.

Lemma versionComp_asymmetric_witness :
  versionComp "1.4" "1.3.9" = Some (false, None).
Proof. exact (versionComp_asymmetric "1.3.9" "1.4" eq_refl). Defined.

(** ** The source root and the directories searched *)

Section SearchPath.
Import GoStrings.

Lemma Split_head c e t :
  ~ In c (list_ascii_of_string e) ->
  Split (e +:+ String c t) c = e :: Split t c.
Proof.
  induction e as [|a e IH]; intros Hno.
  - rewrite app_nil_l. simpl. by rewrite Ascii.eqb_refl.
  - rewrite app_cons. simpl in *.
    destruct (Ascii.eqb_spec a c) as [->|_]; [tauto|].
    rewrite IH; [done|tauto].
Qed.

Lemma Split_whole c e : ~ In c (list_ascii_of_string e) -> Split e c = [e].
Proof.
  induction e as [|a e IH]; intros Hno; [done|]. simpl in *.
  destruct (Ascii.eqb_spec a c) as [->|_]; [tauto|].
  rewrite IH; [done|tauto].
Qed.

Lemma Join_app es fs :
  es <> [] -> fs <> [] ->
  Join (es ++ fs) "/" = Join es "/" +:+ "/" +:+ Join fs "/".
Proof.
  intros Hes Hfs. induction es as [|e es IH]; [done|].
  destruct es as [|e2 es].
  - destruct fs; done.
  - change (Join ((e :: e2 :: es) ++ fs) "/")
      with (e +:+ "/" +:+ Join ((e2 :: es) ++ fs) "/").
    rewrite IH by done.
    change (Join (e :: e2 :: es) "/") with (e +:+ "/" +:+ Join (e2 :: es) "/").
    by rewrite !app_assoc.
Qed.

Lemma plain_elems_nonempty es :
  Forall plain_elem es -> filter (fun e => e <> EmptyString) es = es.
Proof.
  induction 1 as [|e es (He & _) _ IH]; [done|].
  rewrite filter_cons_True by done. by rewrite IH.
Qed.

Lemma clean_root_nonempty p : clean_root p -> p <> EmptyString.
Proof. by intros (es & _ & _ & ->). Qed.

(** Plain elements joined to a clean absolute path come after it, each
    behind one slash. *)
Lemma Join_clean_root p es :
  clean_root p -> es <> [] -> Forall plain_elem es ->
  GoPath.Join (p :: es) = p +:+ "/" +:+ Join es "/".
Proof.
  intros Hp Hne Hes.
  pose proof (clean_root_nonempty p Hp) as Hp0.
  destruct Hp as (ps & Hps & Hplain & ->).
  assert (clean_root ("/" +:+ Join (ps ++ es) "/")) as Hclean.
  { exists (ps ++ es). split; [by destruct ps|]. split; [|done].
    by apply Forall_app. }
  apply Clean_clean_root in Hclean.
  rewrite Join_app in Hclean by done.
  unfold GoPath.Join. rewrite filter_cons_True by done.
  rewrite plain_elems_nonempty by done.
  destruct es as [|e es]; [done|].
  change (GoStrings.Join (("/" +:+ Join ps "/") :: e :: es) "/")
    with (("/" +:+ Join ps "/") +:+ "/" +:+ Join (e :: es) "/").
  rewrite !app_assoc. exact Hclean.
Qed.

(** Plain elements joined from nothing give a relative path. *)
Lemma Join_relative es :
  es <> [] -> Forall plain_elem es -> GoPath.Join es = Join es "/".
Proof.
  intros Hne Hes. unfold GoPath.Join.
  rewrite plain_elems_nonempty by done.
  destruct es as [|e es]; [done|].
  pose proof (Split_Join (e :: es) Hne Hes) as Hsplit.
  destruct (Forall_cons_1 _ _ _ Hes) as [(He & _ & _ & Hslash) _].
  destruct e as [|c e]; [done|].
  assert (exists t, Join (String c e :: es) "/" = String c t) as [t Ht].
  { destruct es; [by eexists|]. eexists. simpl. by rewrite app_cons. }
  unfold GoPath.Clean. rewrite Ht. cbv beta iota zeta. rewrite <- Ht, Hsplit.
  destruct (Ascii.eqb_spec c "/") as [->|_]; [simpl in Hslash; tauto|].
  rewrite clean_elems_plain by done. cbn [rev app].
  rewrite bool_decide_eq_false_2; [done|]. by rewrite Ht.
Qed.

End SearchPath.

(** X4. [getGoPath] fails exactly when [GOPATH] is empty; otherwise it
    returns what stands before the first colon of [GOPATH] (all of it
    when there is no colon), also when that is empty. *)
Theorem getGoPath_first_entry env :
  (GOPATH env = EmptyString ->
   getGoPath env = (EmptyString, Some (errorString "GOPATH not set"))) /\
  (forall first rest,
      colonless first -> GOPATH env = first +:+ ":" +:+ rest ->
      getGoPath env = (first, None)) /\
  (colonless (GOPATH env) -> GOPATH env <> EmptyString ->
   getGoPath env = (GOPATH env, None)).
Proof.
  unfold getGoPath. cbv zeta. split; [|split].
  - by intros ->.
  - intros first rest Hfirst ->.
    rewrite bool_decide_eq_false_2 by by destruct first.
    change (first +:+ ":" +:+ rest) with (first +:+ String ":" rest).
    by rewrite Split_head.
  - intros Hno Hne. rewrite bool_decide_eq_false_2 by done.
    by rewrite Split_whole.
Qed.

Lemma getGoPath_first_entry_witness :
  getGoPath (mkEnv "/home/me/go:/usr/share/go" "/" false)
  = ("/home/me/go", None) /\
  getGoPath (mkEnv ":/usr/share/go" "/" false) = (EmptyString, None).
Proof.
  split.
  - refine (proj1 (proj2 (getGoPath_first_entry
                            (mkEnv "/home/me/go:/usr/share/go" "/" false)))
                  "/home/me/go" "/usr/share/go" _ eq_refl).
    unfold colonless. simpl. intros H.
    repeat (destruct H as [H|H]; [discriminate|]). done.
  - refine (proj1 (proj2 (getGoPath_first_entry
                            (mkEnv ":/usr/share/go" "/" false)))
                  EmptyString "/usr/share/go" _ eq_refl).
    by intros [].
Defined.

(** X5. The two directories of [loadDep]: for a hash that is a plain
    path element, a clean absolute [pkgdir] and a clean absolute source
    root, they are [pkgdir/<hash>] and [<root>/src/gx/ipfs/<hash>].
    [globalPath] ignores the error of [getGoPath]: with [GOPATH] unset
    the second directory is the relative path [src/gx/ipfs/<hash>]. *)
Theorem loadDep_directories env pkgdir hash :
  plain_elem hash ->
  (clean_root pkgdir ->
   GoPath.Join [pkgdir; hash] = pkgdir +:+ "/" +:+ hash) /\
  (forall root,
      getGoPath env = (root, None) -> clean_root root ->
      globalPath env = root +:+ "/src/gx/ipfs" /\
      GoPath.Join [globalPath env; hash] = root +:+ "/src/gx/ipfs/" +:+ hash) /\
  (GOPATH env = EmptyString ->
   globalPath env = "src/gx/ipfs" /\
   GoPath.Join [globalPath env; hash] = "src/gx/ipfs/" +:+ hash).
Proof.
  intros Hhash.
  assert (Forall plain_elem ["src"; "gx"; "ipfs"]) as Hsrc.
  { repeat constructor; try discriminate; simpl; intros H;
      repeat (destruct H as [H|H]; [discriminate|]); done. }
  split; [|split].
  - intros Hdir. by rewrite Join_clean_root by (done || by constructor).
  - intros root Hroot Hclean.
    assert (globalPath env = root +:+ "/src/gx/ipfs") as Hglobal.
    { unfold globalPath. rewrite Hroot. by rewrite Join_clean_root. }
    split; [done|]. rewrite Hglobal.
    destruct Hclean as (ps & Hps & Hplain & ->).
    rewrite (Join_clean_root _ [hash]); [by rewrite !app_assoc| |done|by constructor].
    exists (ps ++ ["src"; "gx"; "ipfs"]).
    split; [by destruct ps|]. split; [by apply Forall_app|].
    rewrite (Join_app ps) by done. by rewrite !app_assoc.
  - intros Hunset.
    assert (globalPath env = "src/gx/ipfs") as Hglobal.
    { unfold globalPath, getGoPath. by rewrite Hunset. }
    split; [done|]. rewrite Hglobal.
    assert (hash <> EmptyString) as Hne by apply Hhash.
    assert (Forall plain_elem ["src"; "gx"; "ipfs"; hash]) as Hall.
    { apply Forall_app with (l1 := ["src"; "gx"; "ipfs"]) (l2 := [hash]).
      split; [done | by constructor]. }
    pose proof (Join_relative ["src"; "gx"; "ipfs"; hash] ltac:(done) Hall)
      as Hrel.
    unfold GoPath.Join in *.
    rewrite plain_elems_nonempty in Hrel by done.
    rewrite !filter_cons_True by done. exact Hrel.
Qed.

Ltac solve_plain_elem :=
  repeat split; try discriminate; simpl; intros H;
  repeat (destruct H as [H|H]; [discriminate|]); done.

Lemma loadDep_directories_witness :
  GoPath.Join [Fixture.pkgdir; "QmX"] = Fixture.pkgdir +:+ "/" +:+ "QmX" /\
  GoPath.Join [globalPath Fixture.env; "QmX"] = "/go" +:+ "/src/gx/ipfs/" +:+ "QmX" /\
  GoPath.Join [globalPath (mkEnv EmptyString "/" false); "QmX"]
  = "src/gx/ipfs/" +:+ "QmX".
Proof.
  assert (plain_elem "QmX") as Hhash by solve_plain_elem.
  destruct (loadDep_directories Fixture.env Fixture.pkgdir "QmX" Hhash)
    as (Hlocal & Hglobal & _).
  destruct (loadDep_directories (mkEnv EmptyString "/" false) "/" "QmX" Hhash)
    as (_ & _ & Hunset).
  split; [|split].
  - apply Hlocal.
    exists ["go"; "src"; "github.com"; "me"; "proj"; "vendor"; "gx"; "ipfs"].
    split; [done|]. split; [|reflexivity].
    repeat (apply Forall_cons; split; [solve_plain_elem|]). constructor.
  - apply (Hglobal "/go" eq_refl).
    exists ["go"]. split; [done|]. split; [|reflexivity].
    apply Forall_singleton. solve_plain_elem.
  - apply Hunset. reflexivity.
Defined.

(** ** More on the lookup function *)

Section ApplierMore.
Import GoStrings.

Lemma app_longer k rest : k +:+ "/" +:+ rest <> k.
Proof.
  intros Heq. apply (f_equal len) in Heq.
  rewrite !len_app in Heq. unfold len in Heq. simpl in Heq. lia.
Qed.

Lemma HasPrefix_key k rest : HasPrefix (k +:+ "/" +:+ rest) (k +:+ "/") = true.
Proof. rewrite <- app_assoc. apply HasPrefix_app. Qed.

(** The loop finds a match exactly when some entry matches. *)
Lemma rwm_range_is_Some s order :
  is_Some (rwm_range s order) <->
  exists k v, (k, v) ∈ order /\ HasPrefix s (k +:+ "/") = true.
Proof.
  split.
  - intros [r (before & k & v & after & -> & _ & Hk & _)%rwm_range_Some].
    exists k, v. split; [|done]. rewrite elem_of_app. right. by left.
  - intros (k & v & Hin & Hk).
    destruct (rwm_range s order) eqn:E; [by eexists|].
    apply rwm_range_None in E. rewrite Forall_forall in E.
    specialize (E _ Hin). unfold no_match in E. simpl in E. congruence.
Qed.

End ApplierMore.

(** X6. A lookup changes the table in one place only: afterwards [s] is
    bound to the result returned and every other key is as before; and a
    second lookup of [s], under any order of iteration, returns the same
    result and leaves the table as it is. *)
Theorem rwm_memoizes order order' mapping s :
  (rwm order mapping s).2 = <[s := (rwm order mapping s).1]> mapping /\
  (forall k, k <> s -> (rwm order mapping s).2 !! k = mapping !! k) /\
  rwm order' (rwm order mapping s).2 s = rwm order mapping s.
Proof.
  assert ((rwm order mapping s).2 = <[s := (rwm order mapping s).1]> mapping)
    as Hins.
  { unfold rwm. destruct (mapping !! s) eqn:Hs; simpl.
    - by rewrite insert_id.
    - by destruct (rwm_range s order). }
  split; [done|]. split.
  - intros k Hk. rewrite Hins. by rewrite lookup_insert_ne.
  - rewrite (rwm_exact order' _ s (rwm order mapping s).1).
    + by destruct (rwm order mapping s).
    + rewrite Hins. apply lookup_insert_eq.
Qed.

(** X7. When at most one key of the table, followed by a slash, starts
    [s], the result of the lookup and the table after it do not depend on
    the order in which the map is iterated. *)
Theorem rwm_order_irrelevant mapping order1 order2 s :
  order1 ≡ₚ map_to_list mapping ->
  order2 ≡ₚ map_to_list mapping ->
  (forall k k',
      is_Some (mapping !! k) -> is_Some (mapping !! k') ->
      GoStrings.HasPrefix s (k +:+ "/") = true ->
      GoStrings.HasPrefix s (k' +:+ "/") = true -> k = k') ->
  rwm order1 mapping s = rwm order2 mapping s.
Proof.
  intros H1 H2 Honly.
  assert (forall order k v, order ≡ₚ map_to_list mapping ->
                            (k, v) ∈ order <-> mapping !! k = Some v) as Hin.
  { intros order k v ->. apply elem_of_map_to_list. }
  assert (rwm_range s order1 = rwm_range s order2) as Hrange.
  { destruct (rwm_range s order1) as [r1|] eqn:E1.
    - destruct (rwm_range_Some _ _ _ E1)
        as (b1 & k1 & v1 & a1 & Ho1 & _ & Hk1 & ->).
      assert (mapping !! k1 = Some v1) as Hv1.
      { apply (Hin order1); [done|]. rewrite Ho1, elem_of_app. right. by left. }
      destruct (rwm_range s order2) as [r2|] eqn:E2.
      + destruct (rwm_range_Some _ _ _ E2)
          as (b2 & k2 & v2 & a2 & Ho2 & _ & Hk2 & ->).
        assert (mapping !! k2 = Some v2) as Hv2.
        { apply (Hin order2); [done|].
          rewrite Ho2, elem_of_app. right. by left. }
        assert (k1 = k2) as -> by (apply Honly; by eauto).
        congruence.
      + assert (is_Some (rwm_range s order2)) as [? ?]; [|congruence].
        apply rwm_range_is_Some. exists k1, v1. split; [|done].
        by apply (Hin order2).
    - destruct (rwm_range s order2) as [r2|] eqn:E2; [|done].
      destruct (rwm_range_Some _ _ _ E2)
        as (b2 & k2 & v2 & a2 & Ho2 & _ & Hk2 & ->).
      assert (is_Some (rwm_range s order1)) as [? ?]; [|congruence].
      apply rwm_range_is_Some. exists k2, v2. split; [|done].
      apply (Hin order1); [done|]. apply (Hin order2); [done|].
      rewrite Ho2, elem_of_app. right. by left. }
  unfold rwm. by rewrite Hrange.
Qed.

Lemma rwm_order_irrelevant_witness :
  rwm [("a", "X"); ("a/b", "Y")] Fixture.nested "a/c"
  = rwm [("a/b", "Y"); ("a", "X")] Fixture.nested "a/c".
Proof.
  assert (map_to_list Fixture.nested = [("a/b", "Y"); ("a", "X")]) as Hlist
      by reflexivity.
  apply rwm_order_irrelevant.
  - rewrite Hlist. apply perm_swap.
  - by rewrite Hlist.
  - assert (forall k, is_Some (Fixture.nested !! k) ->
                      GoStrings.HasPrefix "a/c" (k +:+ "/") = true -> k = "a")
      as Honly.
    { intros k [v Hk] Hmatch.
      apply elem_of_map_to_list in Hk. rewrite Hlist in Hk.
      set_unfold. destruct Hk as [[= -> _]|[[= -> _]|[]]]; [discriminate|done]. }
    intros k k' Hk Hk' Hm Hm'.
    by rewrite (Honly k Hk Hm), (Honly k' Hk' Hm').
Defined.

(** X8. Round trip for one dependency edge with a DVCS import path: an
    import of the package, or of a package below it, rewritten with the
    table [addRewriteForDep] makes and then with the table it makes under
    [undo], is the import one started from. *)
Theorem rewrite_undo_round_trip dep child rest o1 o2 forward backward :
  GoInfo.DvcsImport (Package.Gx child) <> EmptyString ->
  addRewriteForDep dep child false (mkState ∅ []) = Some (tt, forward) ->
  addRewriteForDep dep child true (mkState ∅ []) = Some (tt, backward) ->
  o1 ≡ₚ map_to_list (tbl forward) ->
  o2 ≡ₚ map_to_list (tbl backward) ->
  let dvcs := GoInfo.DvcsImport (Package.Gx child) in
  (rwm o1 (tbl forward) dvcs).1 = gx_path dep child /\
  (rwm o2 (tbl backward) (rwm o1 (tbl forward) dvcs).1).1 = dvcs /\
  (rwm o1 (tbl forward) (dvcs +:+ "/" +:+ rest)).1
  = gx_path dep child +:+ "/" +:+ rest /\
  (rwm o2 (tbl backward) (rwm o1 (tbl forward) (dvcs +:+ "/" +:+ rest)).1).1
  = dvcs +:+ "/" +:+ rest.
Proof.
  intros Hdvcs. rewrite !addRewriteForDep_run.
  rewrite !bool_decide_eq_false_2 by done. unfold edge_entry. cbn [fst snd tbl logged].
  intros [= <-] [= <-]. cbn [tbl].
  rewrite !insert_empty, !map_to_list_singleton.
  intros ->%Permutation_singleton_r ->%Permutation_singleton_r.
  assert (forall k v,
             rwm [(k, v)] {[k := v]} k = (v, {[k := v]})) as Hexact.
  { intros k v. apply rwm_exact, lookup_singleton_eq. }
  assert (forall k v,
             (rwm [(k, v)] {[k := v]} (k +:+ "/" +:+ rest)).1
             = v +:+ "/" +:+ rest) as Hbelow.
  { intros k v. unfold rwm.
    rewrite lookup_singleton_ne by (intros Heq; by apply (app_longer k rest)).
    simpl. rewrite HasPrefix_key.
    by rewrite Replace1_key, slice_from_key by apply HasPrefix_key. }
  by rewrite !Hexact, !Hbelow.
Qed.

Lemma rewrite_undo_round_trip_witness :
  let dep := Dependency.mk "y" "Qm123" in
  let child := Fixture.leaf "y" "github.com/x/y" in
  let forward := mkState {[ "github.com/x/y" := "gx/ipfs/Qm123/y" ]} [] in
  let backward := mkState {[ "gx/ipfs/Qm123/y" := "github.com/x/y" ]} [] in
  (rwm (map_to_list (tbl backward)) (tbl backward)
       (rwm (map_to_list (tbl forward)) (tbl forward)
            ("github.com/x/y" +:+ "/" +:+ "sub/pkg")).1).1
  = "github.com/x/y" +:+ "/" +:+ "sub/pkg".
Proof.
  intros dep child forward backward.
  refine (proj2 (proj2 (proj2 (rewrite_undo_round_trip
                                 dep child "sub/pkg"
                                 (map_to_list (tbl forward))
                                 (map_to_list (tbl backward))
                                 forward backward _ eq_refl eq_refl
                                 (reflexivity _) (reflexivity _))))).
  discriminate.
Defined.


(** ** More on the rewrite table builder *)

Section BuilderMore.

Variable env : Env.
Variable FindPackageInDir :
  Package.t -> string -> Package.t * option string.

#[local] Abbreviation walk := (buildRewriteMapping env FindPackageInDir).
#[local] Abbreviation walk_edge :=
  (buildRewriteMapping_edge env FindPackageInDir).

(** An error that leaves a loop was made by one of its edges. *)
Lemma range_deps_error (Q : error -> Prop) body deps :
  (forall dep st e st',
      dep ∈ deps -> body dep st = Some (Some e, st') -> Q e) ->
  forall st e st', range_deps body deps st = Some (Some e, st') -> Q e.
Proof.
  induction deps as [|dep deps IH]; intros Hbody st e st'; [done|].
  rewrite range_deps_cons.
  destruct (body dep st) as [[[e1|] st1]|] eqn:E; [| |done].
  - intros [= <- <-]. eapply Hbody; [by left|done].
  - apply IH. intros dep' st0 e0 st0' Hin. apply Hbody. by right.
Qed.

(** The traversal for a fixed direction: what the loader and the
    insertion preserve, it preserves. *)
Lemma buildRewriteMapping_preserves_undo R `{!PreOrder R} undo :
  (forall dep pkgdir,
      preserves R (loadDep env FindPackageInDir dep pkgdir)) ->
  (forall dep child, preserves R (addRewriteForDep dep child undo)) ->
  forall depth pkg pkgdir, preserves R (walk depth pkg pkgdir undo).
Proof.
  intros Hload Hadd depth.
  induction depth as [|depth IH]; intros pkg pkgdir; [by intros st r st'|].
  rewrite buildRewriteMapping_S.
  apply range_deps_preserves; [done|]. intros dep st r st'.
  rewrite buildRewriteMapping_edge_run.
  destruct (loadDep _ _ dep pkgdir st) as [[[cpkg|err] st1]|] eqn:El; [| |done].
  - destruct (addRewriteForDep dep cpkg undo st1) as [[[] st2]|] eqn:Ea;
      [|done].
    intros Hrec. etrans; [by eapply Hload|].
    etrans; [by eapply Hadd | by eapply IH].
  - intros [= _ <-]. by eapply Hload.
Qed.

Lemma apply_writes_app w1 w2 m :
  apply_writes (w1 ++ w2) m = apply_writes w2 (apply_writes w1 m).
Proof. unfold apply_writes. by rewrite foldl_app. Qed.

Lemma lookup_apply_writes writes m k :
  apply_writes writes m !! k =
  match last_write writes k with
  | Some v => Some v
  | None => m !! k
  end.
Proof.
  revert m. induction writes as [|[k' v] writes IH]; intros m; [done|].
  change (apply_writes ((k', v) :: writes) m)
    with (apply_writes writes (<[k' := v]> m)).
  rewrite IH. simpl. destruct (last_write writes k); [done|].
  case_bool_decide as Hk.
  - subst. apply lookup_insert_eq.
  - by apply lookup_insert_ne.
Qed.

(** Assigning the same run twice is assigning it once. *)
Lemma apply_writes_twice writes m :
  apply_writes writes (apply_writes writes m) = apply_writes writes m.
Proof.
  apply map_eq. intros k. rewrite !lookup_apply_writes.
  by destruct (last_write writes k).
Qed.

Lemma writes_only_ret {A} (a : A) : writes_only (ret a).
Proof.
  intros m lg a' st' [= <- <-]. exists [], []. intros m' lg'.
  unfold ret. by rewrite app_nil_r.
Qed.

Lemma writes_only_bind {A B} (c : act A) (k : A -> act B) :
  writes_only c -> (forall a, writes_only (k a)) -> writes_only (c ≫= k).
Proof.
  intros Hc Hk m lg b st'. rewrite bind_run.
  destruct (c (mkState m lg)) as [[a st1]|] eqn:E; [|done].
  destruct (Hc _ _ _ _ E) as (w1 & l1 & H1).
  rewrite (H1 m lg) in E. injection E as <-.
  intros Hrun. destruct (Hk a _ _ _ _ Hrun) as (w2 & l2 & H2).
  exists (w1 ++ w2), (l1 ++ l2). intros m' lg'.
  rewrite bind_run, H1, H2, apply_writes_app. by rewrite (assoc_L (++)).
Qed.

Lemma writes_only_loadDep dep pkgdir :
  writes_only (loadDep env FindPackageInDir dep pkgdir).
Proof.
  intros m lg r st' Hrun.
  rewrite loadDep_run in Hrun. cbv zeta in Hrun.
  destruct (FindPackageInDir Package.zero (GoPath.Join [pkgdir; _]))
    as [cpkg [lerr|]] eqn:E1.
  - destruct (FindPackageInDir cpkg (GoPath.Join [globalPath env; _]))
      as [cpkg' [gerr|]] eqn:E2; injection Hrun as <- <-;
      exists [], (vlines env [fetching_line dep;
                              global_line (GoPath.Join [globalPath env;
                                                        Dependency.Hash dep])]);
      intros m' lg'; rewrite loadDep_run, E1; cbv zeta; by rewrite E2.
  - injection Hrun as <- <-. exists [], (vlines env [fetching_line dep]).
    intros m' lg'. by rewrite loadDep_run, E1.
Qed.

Lemma writes_only_addRewriteForDep dep child undo :
  writes_only (addRewriteForDep dep child undo).
Proof.
  intros m lg [] st'. rewrite addRewriteForDep_run.
  case_bool_decide as Hdvcs; intros [= <-].
  - exists [], []. intros m' lg'.
    rewrite addRewriteForDep_run, bool_decide_eq_true_2 by done.
    by rewrite app_nil_r.
  - exists [edge_entry undo dep child], []. intros m' lg'.
    rewrite addRewriteForDep_run, bool_decide_eq_false_2 by done.
    by rewrite app_nil_r.
Qed.

Lemma writes_only_range_deps body deps :
  (forall dep, writes_only (body dep)) -> writes_only (range_deps body deps).
Proof.
  intros Hbody. induction deps as [|dep deps IH]; [apply writes_only_ret|].
  simpl. apply writes_only_bind; [done|].
  intros [err|]; [apply writes_only_ret | done].
Qed.

Lemma writes_only_buildRewriteMapping depth pkg pkgdir undo :
  writes_only (walk depth pkg pkgdir undo).
Proof.
  revert pkg. induction depth as [|depth IH]; intros pkg; [by intros m lg r st'|].
  rewrite buildRewriteMapping_S. apply writes_only_range_deps. intros dep.
  unfold buildRewriteMapping_edge.
  apply writes_only_bind; [apply writes_only_loadDep|].
  intros [cpkg|err]; [|apply writes_only_ret].
  apply writes_only_bind; [apply writes_only_addRewriteForDep|].
  intros _. apply IH.
Qed.

Lemma visits_trans pkgdir pkg mid x :
  visits env FindPackageInDir pkgdir pkg mid ->
  visits env FindPackageInDir pkgdir mid x ->
  visits env FindPackageInDir pkgdir pkg x.
Proof. intros Hmid Hx. induction Hx; [done | by eapply visits_child]. Qed.

(** The error of a failed traversal, whatever the depth it comes from. *)
Lemma buildRewriteMapping_error depth pkg pkgdir undo st err st' :
  walk depth pkg pkgdir undo st = Some (Some err, st') ->
  exists parent dep left lerr left' gerr,
    visits env FindPackageInDir pkgdir pkg parent /\
    dep ∈ Package.Dependencies parent /\
    FindPackageInDir Package.zero (GoPath.Join [pkgdir; Dependency.Hash dep])
    = (left, Some lerr) /\
    FindPackageInDir left (GoPath.Join [globalPath env; Dependency.Hash dep])
    = (left', Some gerr) /\
    err = loadingDepError
            (Dependency.Name dep) (Package.Name parent)
            (errorString ("failed to find package: " +:+ gerr)).
Proof.
  revert pkg st err st'.
  induction depth as [|depth IH]; intros pkg st err st'; [done|].
  rewrite buildRewriteMapping_S. intros Hrun. pattern err.
  eapply range_deps_error; [|exact Hrun]. cbv beta.
  clear st err st' Hrun. intros dep st err st' Hin.
  rewrite buildRewriteMapping_edge_run.
  destruct (loadDep env FindPackageInDir dep pkgdir st)
    as [[[cpkg|lerr] st1]|] eqn:Hload; [| |done].
  - rewrite addRewriteForDep_run. intros Hrun.
    assert (exists st2, walk depth cpkg pkgdir undo st2 = Some (Some err, st'))
      as [st2 Hdeep] by (case_bool_decide; by eexists).
    apply IH in Hdeep
      as (parent & d & left & le & left' & ge & Hvis & Hd & Hl & Hg & ->).
    exists parent, d, left, le, left', ge. split; [|done].
    eapply visits_trans; [|exact Hvis].
    eapply visits_child; [apply visits_root | exact Hin | by exists st, st1].
  - intros [= <- _]. rewrite loadDep_run in Hload. cbv zeta in Hload.
    destruct (FindPackageInDir Package.zero (GoPath.Join [pkgdir; _]))
      as [left [le|]] eqn:E1; [|done].
    destruct (FindPackageInDir left (GoPath.Join [globalPath env; _]))
      as [left' [ge|]] eqn:E2; [|done].
    injection Hload as <- _.
    exists pkg, dep, left, le, left', ge. split; [apply visits_root|done].
Qed.

Lemma addRewriteForDep_keeps_shape dep child undo :
  preserves (keeps_shape (entry_shape undo)) (addRewriteForDep dep child undo).
Proof.
  intros st [] st'. rewrite addRewriteForDep_run.
  case_bool_decide as Hdvcs; intros [= <-]; [by intros ?|].
  intros Hshape. cbn [tbl]. apply map_Forall_insert_2; [|done].
  unfold edge_entry, entry_shape, gx_path.
  destruct undo; cbn [fst snd].
  - split; [apply HasPrefix_app | done].
  - split; [done | apply HasPrefix_app].
Qed.

Lemma loadDep_keeps_shape P dep pkgdir :
  preserves (keeps_shape P) (loadDep env FindPackageInDir dep pkgdir).
Proof.
  intros st r st' Hrun. unfold keeps_shape.
  by rewrite (loadDep_tbl _ _ _ _ _ _ _ Hrun).
Qed.

End BuilderMore.

#[local] Instance keeps_shape_preorder P : PreOrder (keeps_shape P).
Proof.
  unfold keeps_shape. split; [by intros st | intros x y z Hxy Hyz ?; auto].
Qed.

(** ** The entries of a traversal *)

Section Entries.

Variable env : Env.
Variable FindPackageInDir :
  Package.t -> string -> Package.t * option string.

#[local] Abbreviation trav := (buildRewriteMapping env FindPackageInDir).

(** What [loadDep] returns for a dependency does not depend on the
    state. *)
Lemma resolves_unique pkgdir dep c1 c2 :
  resolves env FindPackageInDir pkgdir dep c1 ->
  resolves env FindPackageInDir pkgdir dep c2 -> c1 = c2.
Proof.
  intros (s1 & s1' & H1) (s2 & s2' & H2).
  rewrite loadDep_run in H1, H2. cbv zeta in H1, H2.
  destruct (FindPackageInDir Package.zero _) as [c [e|]].
  - destruct (FindPackageInDir c _) as [c' [e'|]]; [done|]. congruence.
  - congruence.
Qed.

Lemma addRewriteForDep_writes dep child undo st :
  exists st2,
    addRewriteForDep dep child undo st = Some (tt, st2) /\
    tbl st2 = apply_writes
                (if bool_decide (GoInfo.DvcsImport (Package.Gx child) = EmptyString)
                 then [] else [edge_entry undo dep child])
                (tbl st).
Proof.
  rewrite addRewriteForDep_run. case_bool_decide; by eexists.
Qed.

Lemma last_write_Some writes k v :
  last_write writes k = Some v -> (k, v) ∈ writes.
Proof.
  induction writes as [|[k' v'] writes IH]; [done|]. cbn [last_write].
  destruct (last_write writes k) as [v0|].
  - intros [= ->]. right. by apply IH.
  - case_bool_decide as Hk; [|done]. intros [= ->]. subst k'. by left.
Qed.

Lemma last_write_elem writes k v :
  (k, v) ∈ writes -> exists v', last_write writes k = Some v'.
Proof.
  induction writes as [|[k' v'] writes IH]; [by intros ?%elem_of_nil|].
  intros [[= <- <-]|Hin]%elem_of_cons; cbn [last_write].
  - destruct (last_write writes k); [by eexists|].
    rewrite bool_decide_eq_true_2 by done. by eexists.
  - destruct (IH Hin) as [v0 ->]. by eexists.
Qed.

(** A run of the traversal is a run of assignments, each the entry of an
    edge it came through; when it returns without error, the entry of
    every edge of the package is among them. *)
Lemma buildRewriteMapping_writes depth pkg pkgdir undo st r st' :
  trav depth pkg pkgdir undo st = Some (r, st') ->
  exists writes,
    tbl st' = apply_writes writes (tbl st) /\
    Forall (entry_of_traversal env FindPackageInDir pkgdir undo pkg) writes /\
    (r = None ->
     forall dep child,
       dep ∈ Package.Dependencies pkg ->
       resolves env FindPackageInDir pkgdir dep child ->
       GoInfo.DvcsImport (Package.Gx child) <> EmptyString ->
       edge_entry undo dep child ∈ writes).
Proof.
  revert pkg st r st'.
  induction depth as [|depth IH]; intros pkg st r st'; [done|].
  rewrite buildRewriteMapping_S.
  assert (forall deps,
             (forall d, d ∈ deps -> d ∈ Package.Dependencies pkg) ->
             forall st r st',
               range_deps
                 (buildRewriteMapping_edge
                    env FindPackageInDir
                    (fun cpkg => trav depth cpkg pkgdir undo) pkg pkgdir undo)
                 deps st = Some (r, st') ->
               exists writes,
                 tbl st' = apply_writes writes (tbl st) /\
                 Forall (entry_of_traversal env FindPackageInDir pkgdir undo pkg)
                        writes /\
                 (r = None ->
                  forall dep child,
                    dep ∈ deps ->
                    resolves env FindPackageInDir pkgdir dep child ->
                    GoInfo.DvcsImport (Package.Gx child) <> EmptyString ->
                    edge_entry undo dep child ∈ writes)) as Hloop.
  { clear st r st'.
    induction deps as [|dep rest IHrest]; intros Hsub st r st'.
    - intros [= <- <-]. exists []. split; [done|]. split; [constructor|].
      intros _ dep child Hin. by apply elem_of_nil in Hin.
    - rewrite range_deps_cons, buildRewriteMapping_edge_run.
      destruct (loadDep env FindPackageInDir dep pkgdir st)
        as [[[child|err] st1]|] eqn:Hload; [| |done].
      + pose proof (loadDep_tbl _ _ _ _ _ _ _ Hload) as Htbl.
        destruct (addRewriteForDep_writes dep child undo st1)
          as (st2 & -> & Htbl2).
        rewrite Htbl in Htbl2.
        assert (resolves env FindPackageInDir pkgdir dep child) as Hres
            by by exists st, st1.
        assert (dep ∈ Package.Dependencies pkg) as Hdep
            by (apply Hsub; by left).
        assert (Forall (entry_of_traversal env FindPackageInDir pkgdir undo pkg)
                       (if bool_decide
                             (GoInfo.DvcsImport (Package.Gx child) = EmptyString)
                        then [] else [edge_entry undo dep child])) as Hown.
        { case_bool_decide; constructor; [|constructor].
          exists pkg, dep, child. split; [apply visits_root|done]. }
        set (W0 := if bool_decide
                        (GoInfo.DvcsImport (Package.Gx child) = EmptyString)
                   then [] else [edge_entry undo dep child]) in *.
        assert (forall W,
                   Forall (entry_of_traversal env FindPackageInDir pkgdir undo
                                              child) W ->
                   Forall (entry_of_traversal env FindPackageInDir pkgdir undo
                                              pkg) W) as Hlift.
        { intros W HW. eapply Forall_impl; [exact HW|].
          intros kv (parent & d & c & Hvis & Hrest).
          exists parent, d, c. split; [|done].
          eapply visits_trans; [|exact Hvis].
          eapply visits_child; [apply visits_root|exact Hdep|exact Hres]. }
        destruct (trav depth child pkgdir undo st2)
          as [[[e|] st3]|] eqn:Hchild; [| |done].
        * intros [= <- <-].
          destruct (IH _ _ _ _ Hchild) as (W1 & HW1 & HF1 & _).
          exists (W0 ++ W1). rewrite apply_writes_app, <- Htbl2.
          split; [done|]. split; [|done].
          apply Forall_app. split; [done|by apply Hlift].
        * intros Hrest.
          destruct (IH _ _ _ _ Hchild) as (W1 & HW1 & HF1 & _).
          destruct (IHrest (fun d Hd => Hsub d (list_elem_of_further _ _ _ Hd))
                           _ _ _ Hrest)
            as (W2 & HW2 & HF2 & Hall2).
          exists (W0 ++ W1 ++ W2).
          rewrite !apply_writes_app, <- Htbl2, <- HW1.
          split; [done|]. split.
          -- apply Forall_app. split; [done|].
             apply Forall_app. split; [by apply Hlift|done].
          -- intros Hr d c [->|Hin]%elem_of_cons Hc Hdvcs.
             ++ rewrite (resolves_unique _ _ _ _ Hc Hres) in *.
                unfold W0. rewrite bool_decide_eq_false_2 by done.
                apply elem_of_app. left. by left.
             ++ apply elem_of_app. right. apply elem_of_app. right.
                by eapply Hall2.
      + intros [= <- <-]. exists [].
        rewrite (loadDep_tbl _ _ _ _ _ _ _ Hload).
        split; [done|]. split; [constructor|done]. }
  by apply Hloop.
Qed.

End Entries.

(** C5, as stated, fails for the table a build returns: the entry an
    edge writes can be overwritten further on.  [diamond] has the edge
    [x] at [QmX1], whose child is imported from [github.com/x/x], and
    the build returns without error, but its table maps that import
    path to the [x] at [QmX0] that [b] depends on. *)
Lemma buildRewriteMapping_entry_overwritten :
  let dep := Dependency.mk "x" "QmX1" in
  let child := Fixture.leaf "x" "github.com/x/x" in
  let built : gmap string string :=
    {[ "github.com/x/b" := "gx/ipfs/QmB/b";
       "github.com/x/x" := "gx/ipfs/QmX0/x" ]} in
  dep ∈ Package.Dependencies Installed.diamond /\
  loadDep Fixture.env Installed.diamond_vendor dep Fixture.pkgdir Fixture.empty
  = Some (inl child, Fixture.empty) /\
  edge_entry false dep child = ("github.com/x/x", "gx/ipfs/QmX1/x") /\
  buildRewriteMapping Fixture.env Installed.diamond_vendor 3 Installed.diamond
                      Fixture.pkgdir false Fixture.empty
  = Some (None, mkState built []) /\
  built !! "github.com/x/x" = Some "gx/ipfs/QmX0/x" /\
  built !! "github.com/x/x" <> Some "gx/ipfs/QmX1/x".
Proof.
  cbv zeta. split; [by left|]. split; [reflexivity|]. split; [reflexivity|].
  split; [reflexivity|]. split; [reflexivity|]. discriminate.
Qed.

(** C5, amended. When [buildRewriteMapping] returns without error on a
    package whose dependencies include the edge [dep], that edge was
    reached and its child loaded; if the child declares a DVCS import
    path, the entry
    [(child.DvcsImport -> gx/ipfs/<dep.hash>/<child.Name>)], or the
    reversed pair under [undo], was written into the shared table before
    the child was descended into.  In the table returned the key of that
    entry is bound, to the target of an edge of the traversal with that
    key; it is bound to the target of [dep] itself, so that the table
    contains the entry, when no edge of the traversal gives that key
    another target.  On a finite dependency tree the call does return.
    For the dependency [y] at [Qm123] imported from [github.com/x/y] the
    forward table is exactly that entry and the undo table its
    reverse. *)
Theorem buildRewriteMapping_inserts_edge :
  (forall env FindPackageInDir depth pkg pkgdir undo pre dep post st st',
      Package.Dependencies pkg = pre ++ dep :: post ->
      buildRewriteMapping env FindPackageInDir depth pkg pkgdir undo st
      = Some (None, st') ->
      exists d child st1 st2,
        depth = S d /\
        buildRewriteMapping_loop env FindPackageInDir d pkg pkgdir undo pre st
        = Some (None, st1) /\
        loadDep env FindPackageInDir dep pkgdir st1 = Some (inl child, st2) /\
        (GoInfo.DvcsImport (Package.Gx child) <> EmptyString ->
         let from := (edge_entry undo dep child).1 in
         let to := (edge_entry undo dep child).2 in
         let st3 := mkState (<[from := to]> (tbl st2)) (logged st2) in
         addRewriteForDep dep child undo st2 = Some (tt, st3) /\
         tbl st3 !! from = Some to /\
         (exists st4,
             buildRewriteMapping env FindPackageInDir d child pkgdir undo st3
             = Some (None, st4) /\
             buildRewriteMapping_loop env FindPackageInDir d pkg pkgdir undo
                                      post st4
             = Some (None, st')) /\
         from ∈ dom (tbl st') /\
         (exists to',
             tbl st' !! from = Some to' /\
             entry_of_traversal env FindPackageInDir pkgdir undo pkg
                                (from, to')) /\
         ((forall to',
              entry_of_traversal env FindPackageInDir pkgdir undo pkg
                                 (from, to') -> to' = to) ->
          tbl st' !! from = Some to))) /\
  (forall env FindPackageInDir n pkg pkgdir undo st,
      depth_within env FindPackageInDir pkgdir n pkg ->
      is_Some (buildRewriteMapping env FindPackageInDir n pkg pkgdir undo st)) /\
  edge_entry false (Dependency.mk "y" "Qm123") (Fixture.leaf "y" "github.com/x/y")
  = ("github.com/x/y", "gx/ipfs/Qm123/y") /\
  buildRewriteMapping Fixture.env Fixture.vendor 2 Fixture.proj Fixture.pkgdir
                      false Fixture.empty
  = Some (None, mkState {[ "github.com/x/y" := "gx/ipfs/Qm123/y" ]} []) /\
  buildRewriteMapping Fixture.env Fixture.vendor 2 Fixture.proj Fixture.pkgdir
                      true Fixture.empty
  = Some (None, mkState {[ "gx/ipfs/Qm123/y" := "github.com/x/y" ]} []).
Proof.
  split; [|split; [|repeat split; reflexivity]].
  2:{ intros env FindPackageInDir n pkg pkgdir undo st.
      apply buildRewriteMapping_returns. }
  intros env FindPackageInDir depth pkg pkgdir undo pre dep post st st' Hdeps.
  destruct depth as [|d]; [by intros ?|].
  intros Hrun. pose proof Hrun as Hwhole. revert Hrun.
  rewrite buildRewriteMapping_S, Hdeps.
  intros (st1 & stb & Hpre & Hedge & Hpost)%range_deps_success.
  rewrite buildRewriteMapping_edge_run in Hedge.
  destruct (loadDep env FindPackageInDir dep pkgdir st1)
    as [[[child|err] st2]|] eqn:Hload; [| done..].
  exists d, child, st1, st2.
  split; [done|]. split; [exact Hpre|]. split; [done|].
  intros Hdvcs. cbv zeta.
  rewrite addRewriteForDep_run in *.
  rewrite bool_decide_eq_false_2 in * by done.
  split; [done|]. split; [cbn [tbl]; by rewrite lookup_insert_eq|].
  split; [by eexists|].
  split.
  { assert (keeps_keys
              (mkState (<[(edge_entry undo dep child).1 :=
                            (edge_entry undo dep child).2]> (tbl st2))
                       (logged st2)) st') as Hkeys.
    { etrans; [by eapply buildRewriteMapping_keeps_keys|].
      by eapply buildRewriteMapping_loop_keeps_keys. }
    apply Hkeys. cbn [tbl]. rewrite dom_insert_L. set_solver. }
  apply buildRewriteMapping_writes in Hwhole as (W & HW & HF & Hall).
  assert (edge_entry undo dep child ∈ W) as Hin.
  { apply Hall; [done| |by exists st1, st2|done].
    rewrite Hdeps. apply elem_of_app. right. by left. }
  assert (exists to',
             tbl st' !! (edge_entry undo dep child).1 = Some to' /\
             entry_of_traversal env FindPackageInDir pkgdir undo pkg
                                ((edge_entry undo dep child).1, to'))
    as (to' & Hto' & Hentry).
  { destruct (edge_entry undo dep child) as [from to] eqn:Hkv. cbn [fst].
    destruct (last_write_elem _ _ _ Hin) as [to' Hlast].
    exists to'. rewrite HW, lookup_apply_writes, Hlast. split; [done|].
    apply last_write_Some in Hlast.
    by apply (proj1 (Forall_forall _ _) HF) in Hlast. }
  split; [by exists to'|].
  intros Honly. by rewrite Hto', (Honly to' Hentry).
Qed.

Lemma buildRewriteMapping_inserts_edge_witness :
  Package.Dependencies Fixture.proj = [] ++ Dependency.mk "y" "Qm123" :: [] /\
  buildRewriteMapping Fixture.env Fixture.vendor 2 Fixture.proj Fixture.pkgdir
                      false Fixture.empty
  = Some (None, mkState {[ "github.com/x/y" := "gx/ipfs/Qm123/y" ]} []) /\
  "github.com/x/y"
    ∈ dom (tbl (mkState {[ "github.com/x/y" := "gx/ipfs/Qm123/y" ]} [])).
Proof.
  split; [reflexivity|]. split; [reflexivity|].
  destruct (proj1 buildRewriteMapping_inserts_edge
                  Fixture.env Fixture.vendor 2%nat Fixture.proj Fixture.pkgdir
                  false [] (Dependency.mk "y" "Qm123") [] Fixture.empty
                  (mkState {[ "github.com/x/y" := "gx/ipfs/Qm123/y" ]} [])
                  eq_refl eq_refl)
    as (d & child & st1 & st2 & _ & Hpre & Hload & Hins).
  injection Hpre as <-.
  injection Hload as <- <-.
  apply Hins. discriminate.
Defined.

(** X9. The error of a failed [buildRewriteMapping] names one edge only:
    whatever the depth at which a dependency cannot be loaded, the error
    returned is the [loading dep] error with the name of a dependency
    whose two lookups failed and the name of a package that lists it,
    one the traversal comes to from [pkg], around the error of the
    global lookup; the packages further up add nothing to it. *)
Theorem buildRewriteMapping_error_names_one_edge
        env FindPackageInDir depth pkg pkgdir undo st err st' :
  buildRewriteMapping env FindPackageInDir depth pkg pkgdir undo st
  = Some (Some err, st') ->
  exists parent dep left lerr left' gerr,
    visits env FindPackageInDir pkgdir pkg parent /\
    dep ∈ Package.Dependencies parent /\
    FindPackageInDir Package.zero (GoPath.Join [pkgdir; Dependency.Hash dep])
    = (left, Some lerr) /\
    FindPackageInDir left (GoPath.Join [globalPath env; Dependency.Hash dep])
    = (left', Some gerr) /\
    err = loadingDepError
            (Dependency.Name dep) (Package.Name parent)
            (errorString ("failed to find package: " +:+ gerr)).
Proof. apply buildRewriteMapping_error. Qed.

Lemma buildRewriteMapping_error_names_one_edge_witness :
  buildRewriteMapping Fixture.env Scenario.deep 3 Scenario.top Fixture.pkgdir
                      false Fixture.empty
  = Some (Some (loadingDepError
                  "gone" "mid"
                  (errorString
                     "failed to find package: no package found in hashdir: /go/src/gx/ipfs/QmX")),
          mkState {[ "github.com/x/mid" := "gx/ipfs/QmM/mid" ]} []) /\
  exists parent dep left lerr left' gerr,
    visits Fixture.env Scenario.deep Fixture.pkgdir Scenario.top parent /\
    dep ∈ Package.Dependencies parent /\
    Scenario.deep Package.zero
                  (GoPath.Join [Fixture.pkgdir; Dependency.Hash dep])
    = (left, Some lerr) /\
    Scenario.deep left
                  (GoPath.Join [globalPath Fixture.env; Dependency.Hash dep])
    = (left', Some gerr) /\
    loadingDepError
      "gone" "mid"
      (errorString
         "failed to find package: no package found in hashdir: /go/src/gx/ipfs/QmX")
    = loadingDepError
        (Dependency.Name dep) (Package.Name parent)
        (errorString ("failed to find package: " +:+ gerr)).
Proof.
  split; [reflexivity|].
  exact (buildRewriteMapping_error_names_one_edge
           Fixture.env Scenario.deep 3%nat Scenario.top Fixture.pkgdir false
           Fixture.empty _ _ eq_refl).
Defined.

(** X10. The shape of the table: if every entry of the table handed in
    maps a non-empty key to a path under [gx/ipfs/] (or, under [undo], a
    key under [gx/ipfs/] to a non-empty path), so does every entry of the
    table [buildRewriteMapping] leaves, returned with or without error.
    In particular a table built from the empty one has no empty key. *)
Theorem buildRewriteMapping_entry_shape
        env FindPackageInDir depth pkg pkgdir undo st r st' :
  map_Forall (entry_shape undo) (tbl st) ->
  buildRewriteMapping env FindPackageInDir depth pkg pkgdir undo st
  = Some (r, st') ->
  map_Forall (entry_shape undo) (tbl st').
Proof.
  intros Hshape Hrun.
  eapply (buildRewriteMapping_preserves_undo
            env FindPackageInDir (keeps_shape (entry_shape undo)) undo);
    [intros; apply loadDep_keeps_shape
    |intros; apply addRewriteForDep_keeps_shape
    |exact Hrun|exact Hshape].
Qed.

Lemma buildRewriteMapping_entry_shape_witness :
  map_Forall (entry_shape true)
             ({[ "gx/ipfs/Qm123/y" := "github.com/x/y" ]} : gmap string string).
Proof.
  refine (buildRewriteMapping_entry_shape
            Fixture.env Fixture.vendor 2%nat Fixture.proj Fixture.pkgdir true
            Fixture.empty None
            (mkState {[ "gx/ipfs/Qm123/y" := "github.com/x/y" ]} [])
            _ eq_refl).
  apply map_Forall_empty.
Defined.

(** X11. [buildRewriteMapping] never reads the table it fills: a run
    that returns amounts to a fixed sequence of assignments, and on any
    other table (and log) the call returns the same result after the
    same assignments.  So the call is idempotent: run again on the table
    it left, it leaves that table. *)
Theorem buildRewriteMapping_table_blind
        env FindPackageInDir depth pkg pkgdir undo st r st' :
  buildRewriteMapping env FindPackageInDir depth pkg pkgdir undo st
  = Some (r, st') ->
  exists writes lines,
    st' = mkState (apply_writes writes (tbl st)) (logged st ++ lines) /\
    (forall m lg,
        buildRewriteMapping env FindPackageInDir depth pkg pkgdir undo
                            (mkState m lg)
        = Some (r, mkState (apply_writes writes m) (lg ++ lines))) /\
    buildRewriteMapping env FindPackageInDir depth pkg pkgdir undo st'
    = Some (r, mkState (tbl st') (logged st' ++ lines)).
Proof.
  destruct st as [m lg]. intros Hrun.
  destruct (writes_only_buildRewriteMapping
              env FindPackageInDir depth pkg pkgdir undo m lg r st' Hrun)
    as (writes & lines & Hall).
  exists writes, lines.
  rewrite (Hall m lg) in Hrun. injection Hrun as <-.
  split; [done|]. split; [done|].
  cbn [tbl logged]. by rewrite Hall, apply_writes_twice.
Qed.

Lemma buildRewriteMapping_table_blind_witness :
  exists writes lines,
    mkState {[ "github.com/a/b" := "gx/ipfs/Qm2/b" ]} []
    = mkState (apply_writes writes (tbl Fixture.empty))
              (logged Fixture.empty ++ lines) /\
    (forall m lg,
        buildRewriteMapping Fixture.env Fixture.clash_vendor 2 Fixture.clash
                            Fixture.pkgdir false (mkState m lg)
        = Some (None, mkState (apply_writes writes m) (lg ++ lines))) /\
    buildRewriteMapping Fixture.env Fixture.clash_vendor 2 Fixture.clash
                        Fixture.pkgdir false
                        (mkState {[ "github.com/a/b" := "gx/ipfs/Qm2/b" ]} [])
    = Some (None,
            mkState (tbl (mkState {[ "github.com/a/b" := "gx/ipfs/Qm2/b" ]} []))
                    (logged (mkState {[ "github.com/a/b" := "gx/ipfs/Qm2/b" ]} [])
                     ++ lines)).
Proof.
  exact (buildRewriteMapping_table_blind
           Fixture.env Fixture.clash_vendor 2%nat Fixture.clash Fixture.pkgdir
           false Fixture.empty None
           (mkState {[ "github.com/a/b" := "gx/ipfs/Qm2/b" ]} []) eq_refl).
Defined.

(** ** More on the dependency map *)

Section DepMapMore.

Variable FindPackageInDir :
  Package.t -> string -> Package.t * option string.

#[local] Abbreviation scan := (buildMap FindPackageInDir).
#[local] Abbreviation scan_edge := (buildMap_edge FindPackageInDir).

Lemma buildMap_S depth pkg :
  scan (S depth) pkg
  = range_deps (scan_edge (scan depth)) (Package.Dependencies pkg).
Proof. reflexivity. Qed.

Lemma buildMap_loop_keeps_entries depth deps :
  preserves keeps_entries (range_deps (scan_edge (scan depth)) deps).
Proof.
  apply range_deps_preserves; [apply _|]. intros dep.
  apply buildMap_edge_keeps_entries. intros ch.
  apply buildMap_keeps_entries.
Qed.

(** A successful scan, run on a table that holds all it left, succeeds
    again and changes no entry. *)
Lemma buildMap_rerun depth pkg st st' s2 :
  scan depth pkg st = Some (None, st') ->
  tbl st' ⊆ tbl s2 ->
  exists s2', scan depth pkg s2 = Some (None, s2') /\ tbl s2' = tbl s2.
Proof.
  revert pkg st st' s2.
  induction depth as [|depth IH]; intros pkg st st' s2; [done|].
  rewrite !buildMap_S. generalize (Package.Dependencies pkg). clear pkg.
  intros deps. revert st s2.
  induction deps as [|dep deps IHdeps]; intros st s2 Hrun Hsub.
  { by exists s2. }
  rewrite range_deps_cons in Hrun. rewrite range_deps_cons.
  destruct (scan_edge (scan depth) dep st) as [[[err|] st1]|] eqn:Hedge;
    [done| |done].
  assert (tbl st1 ⊆ tbl s2) as Hsub1.
  { etrans; [|exact Hsub]. by eapply buildMap_loop_keeps_entries. }
  assert (exists s2a, scan_edge (scan depth) dep s2 = Some (None, s2a) /\
                      tbl s2a = tbl s2) as (s2a & -> & Hsame).
  { rewrite buildMap_edge_run in Hedge. rewrite buildMap_edge_run.
    destruct (FindPackageInDir _ _) as [ch [err|]]; [done|]. cbv zeta in *.
    case_bool_decide as Himp; [by eapply IH|].
    destruct (tbl st !! GoInfo.DvcsImport (Package.Gx ch)) as [e|] eqn:He.
    - assert (tbl s2 !! GoInfo.DvcsImport (Package.Gx ch) = Some e) as ->.
      { eapply lookup_weaken; [exact He|]. etrans; [|exact Hsub1].
        case_bool_decide; by injection Hedge as <-. }
      case_bool_decide; by eexists.
    - assert (tbl s2 !! GoInfo.DvcsImport (Package.Gx ch)
              = Some (Dependency.Hash dep)) as ->.
      { eapply lookup_weaken; [|exact Hsub1].
        eapply lookup_weaken; [|by eapply buildMap_keeps_entries].
        cbn [tbl]. apply lookup_insert_eq. }
      rewrite bool_decide_eq_true_2 by done. by eexists. }
  destruct (IHdeps st1 s2a Hrun) as (s2' & -> & Hsame'); [by rewrite Hsame|].
  exists s2'. split; [done|]. by rewrite Hsame', Hsame.
Qed.

End DepMapMore.

(** X12. [buildMap] is idempotent on its result: after a scan that
    returned without error, a second scan of the same package on the
    table the first one left returns without error and leaves every
    entry as it is (it may log conflicts again). *)
Theorem buildMap_idempotent FindPackageInDir depth pkg st st' :
  buildMap FindPackageInDir depth pkg st = Some (None, st') ->
  exists st'',
    buildMap FindPackageInDir depth pkg st' = Some (None, st'') /\
    tbl st'' = tbl st'.
Proof. intros Hrun. by eapply buildMap_rerun. Qed.

Lemma buildMap_idempotent_witness :
  exists st'',
    buildMap Fixture.clash_vendor 2 Fixture.clash
             (mkState {[ "github.com/a/b" := "Qm1" ]}
                      (conflict_lines "github.com/a/b" "Qm1" "Qm2"))
    = Some (None, st'') /\
    tbl st'' = {[ "github.com/a/b" := "Qm1" ]}.
Proof.
  exact (buildMap_idempotent
           Fixture.clash_vendor 2%nat Fixture.clash Fixture.empty
           (mkState {[ "github.com/a/b" := "Qm1" ]}
                    (conflict_lines "github.com/a/b" "Qm1" "Qm2"))
           eq_refl).
Defined.

(** X13. [buildMap] looks for a dependency under [vendor/gx/ipfs/<hash>]
    only, relative to the working directory: when that lookup fails the
    scan stops with the error of the lookup as it is, not wrapped, and
    with the entries made so far left in the table; there is no second
    lookup in the global cache, where [loadDep] would go on. *)
Theorem buildMap_stops_at_missing_vendor
        FindPackageInDir depth pkg pre dep post st st1 left err :
  Package.Dependencies pkg = pre ++ dep :: post ->
  range_deps (buildMap_edge FindPackageInDir (buildMap FindPackageInDir depth))
             pre st = Some (None, st1) ->
  FindPackageInDir Package.zero (GoPath.Join [vendorDir; Dependency.Hash dep])
  = (left, Some err) ->
  buildMap FindPackageInDir (S depth) pkg st
  = Some (Some (errorString err), st1) /\
  tbl st ⊆ tbl st1.
Proof.
  intros Hdeps Hpre Hfind. split.
  - rewrite buildMap_S, Hdeps, range_deps_app, Hpre, range_deps_cons.
    by rewrite buildMap_edge_run, Hfind.
  - by eapply buildMap_loop_keeps_entries.
Qed.

Lemma buildMap_stops_at_missing_vendor_witness :
  (buildMap Fixture.cache 1 Scenario.needs_cache Fixture.empty
   = Some (Some (errorString "no package found in hashdir: vendor/gx/ipfs/QmG"),
           Fixture.empty) /\
   tbl Fixture.empty ⊆ tbl Fixture.empty) /\
  buildRewriteMapping Fixture.env Fixture.cache 2 Scenario.needs_cache
                      Fixture.pkgdir false Fixture.empty
  = Some (None, mkState {[ "github.com/x/cached" := "gx/ipfs/QmG/cached" ]} []).
Proof.
  split; [|reflexivity].
  exact (buildMap_stops_at_missing_vendor
           Fixture.cache 0%nat Scenario.needs_cache [] Fixture.cached []
           Fixture.empty Fixture.empty Package.zero
           "no package found in hashdir: vendor/gx/ipfs/QmG"
           eq_refl eq_refl eq_refl).
Defined.

(** ** The dry-run printer *)

Section Printer.

Lemma sort_Strings_Permutation (l1 l2 : list string) :
  l1 ≡ₚ l2 -> sort_Strings l1 = sort_Strings l2.
Proof.
  intros Hperm. unfold sort_Strings.
  apply (Sorted_unique String.le); [apply Sorted_merge_sort, _..|].
  by rewrite !merge_sort_Permutation.
Qed.

Lemma entries_of_keys (m : gmap string string) :
  (fun n => (n, default EmptyString (m !! n))) <$> (map_to_list m).*1
  = map_to_list m.
Proof.
  rewrite <- list_fmap_compose.
  rewrite <- (list_fmap_id (map_to_list m)) at 2.
  apply list_fmap_ext.
  intros i [k v] Hkv. simpl.
  apply list_elem_of_lookup_2, elem_of_map_to_list in Hkv. by rewrite Hkv.
Qed.

Lemma keys_of_entries (m : gmap string string) (l : list string) :
  ((fun n => (n, default EmptyString (m !! n))) <$> l).*1 = l.
Proof. induction l as [|n l IH]; [done|]. csimpl. by f_equal. Qed.

End Printer.

(** X14. What [tabPrintSortedMap] prints does not depend on the order in
    which the map is iterated: the tabwriter is handed one line per
    entry, each the key, a tab, the value and a newline, in ascending
    order of the keys, and the standard output gets what the tabwriter
    makes of these lines. *)
Theorem tabPrintSortedMap_sorted tabwriter headers order order' m :
  order ≡ₚ map_to_list m ->
  order' ≡ₚ map_to_list m ->
  tabPrintSortedMap tabwriter headers order m
  = tabPrintSortedMap tabwriter headers order' m /\
  exists entries,
    entries ≡ₚ map_to_list m /\
    Sorted String.le entries.*1 /\
    tabPrintSortedMap tabwriter None order m
    = Some (tabwriter ((fun kv => tab_line kv.1 kv.2) <$> entries)).
Proof.
  intros Ho Ho'. split.
  - unfold tabPrintSortedMap. cbv zeta.
    by rewrite (sort_Strings_Permutation order.*1 order'.*1) by by rewrite Ho, Ho'.
  - exists ((fun n => (n, default EmptyString (m !! n)))
              <$> sort_Strings order.*1).
    assert (sort_Strings order.*1 ≡ₚ (map_to_list m).*1) as Hnames.
    { unfold sort_Strings. by rewrite merge_sort_Permutation, Ho. }
    split; [by rewrite Hnames, entries_of_keys|]. split.
    + rewrite keys_of_entries. apply Sorted_merge_sort, _.
    + unfold tabPrintSortedMap. cbv zeta. simpl. do 2 f_equal.
      by rewrite <- list_fmap_compose.
Qed.

Lemma tabPrintSortedMap_sorted_witness :
  tabPrintSortedMap Installed.two_columns None [("a", "X"); ("a/b", "Y")]
                    Fixture.nested
  = tabPrintSortedMap Installed.two_columns None [("a/b", "Y"); ("a", "X")]
                      Fixture.nested /\
  tabPrintSortedMap Installed.two_columns None [("a/b", "Y"); ("a", "X")]
                    Fixture.nested
  = Some (("a" +:+ Installed.spaces 11 +:+ "X" +:+ newline) +:+
          ("a/b" +:+ Installed.spaces 9 +:+ "Y" +:+ newline)).
Proof.
  assert (map_to_list Fixture.nested = [("a/b", "Y"); ("a", "X")]) as Hlist
      by reflexivity.
  split; [|reflexivity].
  refine (proj1 (tabPrintSortedMap_sorted
                   Installed.two_columns
                   None [("a", "X"); ("a/b", "Y")] [("a/b", "Y"); ("a", "X")]
                   Fixture.nested _ _)).
  - rewrite Hlist. apply perm_swap.
  - by rewrite Hlist.
Defined.

(** ** The hooks *)

Section HooksMore.
Import GoStrings.

Lemma slice_checked_app p t : slice_checked (p +:+ t) (len p) = Some t.
Proof.
  unfold slice_checked. rewrite len_app.
  destruct (Nat.leb_spec (len p) (len p + len t)); [|lia].
  by rewrite slice_from_app.
Qed.

Lemma slice_checked_short w n : (len w < n)%nat -> slice_checked w n = None.
Proof.
  intros Hlt. unfold slice_checked.
  by destruct (Nat.leb_spec n (len w)); [lia|].
Qed.

(** The words of the output of the compiler, when the first three hold
    no space. *)
Lemma Split_three_words w0 w1 w2 rest :
  spaceless w0 -> spaceless w1 -> spaceless w2 ->
  exists more,
    Split (w0 +:+ " " +:+ w1 +:+ " " +:+ w2 +:+ " " +:+ rest) " "
    = w0 :: w1 :: w2 :: Split rest " " /\
    Split rest " " = more /\ more <> [].
Proof.
  intros H0 H1 H2. exists (Split rest " ").
  split; [|split; [done | apply Split_nonempty]].
  change (w0 +:+ " " +:+ w1 +:+ " " +:+ w2 +:+ " " +:+ rest)
    with (w0 +:+ String " " (w1 +:+ String " " (w2 +:+ String " " rest))).
  by rewrite !Split_head.
Qed.

(** An error of [packagesGoImport] comes with the empty path. *)
Lemma packagesGoImport_error env p imp e :
  packagesGoImport env p = (imp, Some e) -> imp = EmptyString.
Proof.
  unfold packagesGoImport. destruct (getGoPath env) as [gopath [err|]].
  - by intros [= <- _].
  - cbv zeta. by destruct (negb _); intros [= <-].
Qed.

End HooksMore.

(** X15. [reqCheckHook] on the usual output of the compiler,
    [go version go<V> <platform>], with gx-go built by [go<W>]: a package
    without a version requirement is accepted and the compiler is not
    asked; with a requirement, and the versions comparable, the package
    is refused for the installed compiler if [V] is older than required,
    else for the gx-go binary if [W] is older than required, and else
    accepted. *)
Theorem reqCheckHook_decides
        PkgFileName LoadPackageFile pkgpath npkg go_version gxgocompvers :
  LoadPackageFile (GoPath.Join [pkgpath; PkgFileName]) = inl npkg ->
  let reqvers := GoInfo.GoVersion (Package.Gx npkg) in
  (reqvers = EmptyString ->
   reqCheckHook PkgFileName LoadPackageFile go_version gxgocompvers pkgpath
   = Returned None []) /\
  (forall V platform W b1 b2,
      reqvers <> EmptyString ->
      spaceless ("go" +:+ V) ->
      go_version = Some ("go version go" +:+ V +:+ " " +:+ platform) ->
      gxgocompvers = "go" +:+ W ->
      versionComp V reqvers = Some (b1, None) ->
      versionComp W reqvers = Some (b2, None) ->
      reqCheckHook PkgFileName LoadPackageFile go_version gxgocompvers pkgpath
      = Returned
          (if b1 then Some (RequiresAtLeast (Package.Name npkg) reqvers V)
           else if b2
                then Some (CompiledWith (Package.Name npkg) reqvers gxgocompvers)
                else None)
          []).
Proof.
  intros Hload reqvers. unfold reqCheckHook. cbv zeta. rewrite Hload.
  fold reqvers. split.
  - intros ->. by rewrite bool_decide_eq_true_2.
  - intros V platform W b1 b2 Hreq HV -> -> H1 H2.
    rewrite bool_decide_eq_false_2 by done. cbn [negb].
    destruct (Split_three_words "go" "version" ("go" +:+ V) platform)
      as (more & Hsplit & _ & Hmore); [by intros [[=]|[[=]|[]]]| |done|].
    { intros H. repeat (destruct H as [H|H]; [discriminate|]). done. }
    change ("go version go" +:+ V +:+ " " +:+ platform)
      with ("go" +:+ " " +:+ "version" +:+ " " +:+ ("go" +:+ V) +:+ " "
            +:+ platform).
    rewrite Hsplit.
    destruct (GoStrings.Split platform " ") as [|word words] eqn:Hwords.
    { by destruct (Split_nonempty platform " "). }
    cbn [length Nat.ltb Nat.leb lookup list_lookup].
    change (slice_checked ("go" +:+ V) 2) with (slice_checked ("go" +:+ V) (GoStrings.len "go")).
    rewrite slice_checked_app, H1.
    destruct b1; [done|].
    rewrite HasPrefix_app.
    change (slice_checked ("go" +:+ W) 2) with (slice_checked ("go" +:+ W) (GoStrings.len "go")).
    rewrite slice_checked_app, H2. by destruct b2.
Qed.

Lemma reqCheckHook_decides_witness :
  reqCheckHook "package.json" Scenario.files
               (Some ("go version go" +:+ "1.3.3" +:+ " " +:+ "linux/amd64"))
               ("go" +:+ "1.5") "/pkg"
  = Returned (Some (RequiresAtLeast "lib" "1.4" "1.3.3")) [] /\
  reqCheckHook "package.json" Scenario.files
               (Some ("go version go" +:+ "1.5" +:+ " " +:+ "linux/amd64"))
               ("go" +:+ "1.4.2") "/pkg"
  = Returned None [].
Proof.
  split.
  - refine (proj2 (reqCheckHook_decides
                     "package.json" Scenario.files "/pkg" Scenario.wants_1_4
                     _ _ eq_refl)
                  "1.3.3" "linux/amd64" "1.5" true false _ _
                  eq_refl eq_refl eq_refl eq_refl); [discriminate|].
    intros H. repeat (destruct H as [H|H]; [discriminate|]). done.
  - refine (proj2 (reqCheckHook_decides
                     "package.json" Scenario.files "/pkg" Scenario.wants_1_4
                     _ _ eq_refl)
                  "1.5" "linux/amd64" "1.4.2" false false _ _
                  eq_refl eq_refl eq_refl eq_refl); [discriminate|].
    intros H. repeat (destruct H as [H|H]; [discriminate|]). done.
Defined.

(** X16. [reqCheckHook] slices the third word of the compiler's output
    from its third byte without looking at its length: for a package with
    a version requirement, an output of four or more words whose third
    word is shorter than two bytes makes the hook panic. *)
Theorem reqCheckHook_short_word_panics
        PkgFileName LoadPackageFile pkgpath npkg gxgocompvers w0 w1 w2 rest :
  LoadPackageFile (GoPath.Join [pkgpath; PkgFileName]) = inl npkg ->
  GoInfo.GoVersion (Package.Gx npkg) <> EmptyString ->
  spaceless w0 -> spaceless w1 -> spaceless w2 ->
  (GoStrings.len w2 < 2)%nat ->
  reqCheckHook PkgFileName LoadPackageFile
               (Some (w0 +:+ " " +:+ w1 +:+ " " +:+ w2 +:+ " " +:+ rest))
               gxgocompvers pkgpath
  = Panicked.
Proof.
  intros Hload Hreq H0 H1 H2 Hshort. unfold reqCheckHook. cbv zeta.
  rewrite Hload, bool_decide_eq_false_2 by done. cbn [negb].
  destruct (Split_three_words w0 w1 w2 rest H0 H1 H2)
    as (more & Hsplit & Hrest & Hmore).
  rewrite Hsplit, Hrest.
  destruct more as [|word words]; [done|].
  cbn [length Nat.ltb Nat.leb lookup list_lookup].
  by rewrite slice_checked_short.
Qed.

Lemma reqCheckHook_short_word_panics_witness :
  reqCheckHook "package.json" Scenario.files
               (Some ("go" +:+ " " +:+ "version" +:+ " " +:+ "1" +:+ " " +:+ "linux"))
               "go1.5" "/pkg"
  = Panicked.
Proof.
  assert (forall w, w = "go" \/ w = "version" \/ w = "1" -> spaceless w)
    as Hwords.
  { intros w [-> | [-> | ->]] H;
      repeat (destruct H as [H|H]; [discriminate|]); done. }
  apply (reqCheckHook_short_word_panics
           "package.json" Scenario.files "/pkg" Scenario.wants_1_4 "go1.5"
           "go" "version" "1" "linux" eq_refl);
    [discriminate | apply Hwords; auto.. | simpl; lia].
Defined.

(** X17. The [post-init] hook writes the descriptor back to the file it
    read it from, [<dir>/<PkgFileName>] with [dir] the first argument or
    else the working directory.  Only [dvcsimport] can differ: it becomes
    the path of [dir] below [<root>/src/] when [dir] lies strictly below
    it, and when the path cannot be resolved (outside the root, at the
    root, or [GOPATH] unset) the descriptor is written back as read, an
    import path it had is not cleared. *)
Theorem postInitHook_sets_dvcsimport
        env PkgFileName LoadPackageFile SavePackageFile args pkg :
  let dir := match args with
             | first :: _ => first
             | [] => cwd env
             end in
  let file := GoPath.Join [dir; PkgFileName] in
  LoadPackageFile file = inl pkg ->
  exists pkg',
    postInitHook env PkgFileName LoadPackageFile SavePackageFile args
    = (Some (pkg', file), SavePackageFile pkg' file) /\
    Package.Name pkg' = Package.Name pkg /\
    Package.Dependencies pkg' = Package.Dependencies pkg /\
    GoInfo.GoVersion (Package.Gx pkg') = GoInfo.GoVersion (Package.Gx pkg) /\
    (forall root rel,
        getGoPath env = (root, None) ->
        dir = (GoPath.Join [root; "src"] +:+ "/") +:+ rel ->
        rel <> EmptyString ->
        GoInfo.DvcsImport (Package.Gx pkg') = rel) /\
    ((packagesGoImport env dir).1 = EmptyString -> pkg' = pkg) /\
    ((packagesGoImport env dir).2 <> None -> pkg' = pkg).
Proof.
  intros dir file Hload. unfold postInitHook. fold dir. fold file.
  rewrite Hload.
  destruct (packagesGoImport env dir) as [imp err] eqn:Himp.
  eexists. split; [reflexivity|].
  case_bool_decide as Hempty; cbn [negb].
  - repeat split; try done.
    intros root rel Hroot Hdir Hrel.
    rewrite (packagesGoImport_root env root dir Hroot) in Himp.
    cbv zeta in Himp. rewrite Hdir, HasPrefix_app, slice_from_app in Himp.
    cbv iota in Himp. injection Himp as <- <-. done.
  - repeat split; try done.
    + intros root rel Hroot Hdir Hrel.
      rewrite (packagesGoImport_root env root dir Hroot) in Himp.
      cbv zeta in Himp. rewrite Hdir, HasPrefix_app, slice_from_app in Himp.
      cbv iota in Himp. injection Himp as <- <-. done.
    + cbn [snd]. destruct err as [e|]; [|done].
      by apply packagesGoImport_error in Himp.
Qed.

Lemma postInitHook_sets_dvcsimport_witness :
  exists pkg',
    postInitHook Fixture.env "package.json" Scenario.files
                 (fun _ _ => None) []
    = (Some (pkg', "/go/src/github.com/me/proj/package.json"), None) /\
    GoInfo.DvcsImport (Package.Gx pkg') = "github.com/me/proj".
Proof.
  destruct (postInitHook_sets_dvcsimport
              Fixture.env "package.json" Scenario.files (fun _ _ => None) []
              Fixture.proj eq_refl)
    as (pkg' & Hrun & _ & _ & _ & Hset & _).
  exists pkg'. split; [exact Hrun|].
  exact (Hset "/go" "github.com/me/proj" eq_refl eq_refl ltac:(discriminate)).
Defined.

(** ** The [post-install] hook *)

Section InstallHook.
Import GoStrings.

Lemma HasPrefix_app_long s p t :
  (len p <= len s)%nat -> HasPrefix (s +:+ t) p = HasPrefix s p.
Proof.
  revert s. induction p as [|a p IH]; intros s Hlen; [done|].
  unfold len in *. destruct s as [|b s]; simpl in Hlen; [lia|].
  rewrite app_cons. simpl. destruct (Ascii.eqb a b); [|done].
  apply IH. lia.
Qed.

Lemma Split_first_eq s sep :
  Split_first s sep =
  if HasPrefix s sep then EmptyString
  else match s with
       | EmptyString => EmptyString
       | String c s' => String c (Split_first s' sep)
       end.
Proof. by destruct s. Qed.

Lemma app_last pre sep0 c rest :
  (pre +:+ sep0) +:+ String c rest
  = pre +:+ (sep0 +:+ String c EmptyString) +:+ rest.
Proof.
  rewrite !app_assoc. reflexivity.
Qed.

(** What stands before the leftmost occurrence of the separator. *)
Lemma Split_first_before pre sep0 c rest :
  Contains (pre +:+ sep0) (sep0 +:+ String c EmptyString) = false ->
  Split_first (pre +:+ (sep0 +:+ String c EmptyString) +:+ rest)
              (sep0 +:+ String c EmptyString) = pre.
Proof.
  induction pre as [|a pre IH]; intros Hno.
  - rewrite app_nil_l, Split_first_eq. by rewrite HasPrefix_app.
  - rewrite app_cons in Hno. simpl in Hno.
    apply orb_false_iff in Hno as [Hhere Hlater].
    rewrite app_cons, Split_first_eq, <- app_last, <- app_cons.
    rewrite HasPrefix_app_long, Hhere.
    + f_equal. rewrite app_last. by apply IH.
    + rewrite len_app. change (len (String a (pre +:+ sep0)))
        with (S (len (pre +:+ sep0))). rewrite len_app. simpl. lia.
Qed.

Lemma Split_snoc a b :
  ~ In "/"%char (list_ascii_of_string b) ->
  Split (a +:+ String "/" b) "/" = Split a "/" ++ [b].
Proof.
  intros Hb. induction a as [|c a IH].
  - rewrite app_nil_l. simpl. by rewrite Split_slashfree.
  - rewrite app_cons. simpl. rewrite IH.
    destruct (Ascii.eqb c "/"); [done|].
    pose proof (Split_nonempty a "/"%char) as Hne.
    by destruct (Split a "/").
Qed.

(** The last element of a path is its base. *)
Lemma Base_last parent hash :
  hash <> EmptyString -> ~ In "/"%char (list_ascii_of_string hash) ->
  Base (parent +:+ "/" +:+ hash) = hash.
Proof.
  intros Hne Hslash. unfold Base.
  change ("/" +:+ hash) with (String "/" hash).
  rewrite bool_decide_eq_false_2.
  2:{ destruct parent; [rewrite app_nil_l | rewrite app_cons]; discriminate. }
  rewrite Split_snoc, rev_app_distr by done. simpl.
  by rewrite bool_decide_eq_false_2.
Qed.

Lemma Split_Join_slashfree es :
  es <> [] ->
  Forall (fun e => ~ In "/"%char (list_ascii_of_string e)) es ->
  Split (Join es "/") "/" = es.
Proof.
  intros Hne Hes. induction Hes as [|e es He Hes IH]; [done|].
  destruct es as [|e2 es]; [by apply Split_slashfree|].
  change (Join (e :: e2 :: es) "/") with (e +:+ String "/" (Join (e2 :: es) "/")).
  rewrite Split_app_sep by done. by rewrite IH.
Qed.

Lemma clean_elems_skip rooted stack es fs :
  Forall plain_elem es -> Forall plain_elem fs ->
  GoPath.clean_elems rooted stack (es ++ EmptyString :: fs)
  = rev stack ++ es ++ fs.
Proof.
  intros Hes Hfs. revert stack.
  induction Hes as [|e es (He1 & He2 & He3 & _) _ IH]; intros stack; simpl.
  - by apply clean_elems_plain.
  - rewrite !bool_decide_eq_false_2 by done. simpl.
    rewrite IH. simpl. by rewrite <- (assoc_L (++)).
Qed.

(** A slash at the end of the first element is cleaned away. *)
Lemma Join_trailing_slash root es :
  clean_root root -> es <> [] -> Forall plain_elem es ->
  GoPath.Join ((root +:+ "/") :: es) = root +:+ "/" +:+ Join es "/".
Proof.
  intros (ps & Hps & Hplain & ->) Hne Hes.
  unfold GoPath.Join. rewrite filter_cons_True by done.
  rewrite plain_elems_nonempty by done.
  destruct es as [|e es]; [done|].
  change (Join ((("/" +:+ Join ps "/") +:+ "/") :: e :: es) "/")
    with ((("/" +:+ Join ps "/") +:+ "/") +:+ "/" +:+ Join (e :: es) "/").
  replace ((("/" +:+ Join ps "/") +:+ "/") +:+ "/" +:+ Join (e :: es) "/")
    with (String "/" (Join (ps ++ EmptyString :: e :: es) "/")).
  2:{ rewrite Join_app by done.
      change (Join (EmptyString :: e :: es) "/")
        with (EmptyString +:+ "/" +:+ Join (e :: es) "/").
      rewrite app_nil_l, !app_assoc. done. }
  unfold GoPath.Clean.
  change (Split (String "/" (Join (ps ++ EmptyString :: e :: es) "/")) "/")
    with (EmptyString :: Split (Join (ps ++ EmptyString :: e :: es) "/") "/").
  rewrite Split_Join_slashfree; [|by destruct ps|].
  2:{ apply Forall_app. split.
      - eapply Forall_impl; [exact Hplain|]. by intros x (_ & _ & _ & Hx).
      - constructor; [simpl; tauto|].
        eapply Forall_impl; [exact Hes|]. by intros x (_ & _ & _ & Hx). }
  simpl. rewrite clean_elems_skip by done. simpl.
  rewrite Join_app by done. by rewrite !app_assoc.
Qed.

End InstallHook.

(** X18. The [post-install] hook maps the import path of the installed
    package itself, last: for a package found at [<parent>/<hash>] the
    table handed to [doRewrite] binds its [dvcsimport] to
    [gx/ipfs/<hash>/<name>], also where a dependency had claimed that
    import path (and also when [dvcsimport] is empty: the table then has
    an entry for the empty key); every other key is as
    [buildRewriteMapping] left it, starting from an empty table. *)
Theorem postInstallHook_own_import env FindPackageInDir depth
        parent hash pkg st0 r st :
  hash <> EmptyString -> ~ In "/"%char (list_ascii_of_string hash) ->
  FindPackageInDir Package.zero (parent +:+ "/" +:+ hash) = (pkg, None) ->
  postInstallHook env FindPackageInDir depth (parent +:+ "/" +:+ hash) st0
  = Some (inr r, st) ->
  r = (pkg, GoPath.Join [parent +:+ "/" +:+ hash; Package.Name pkg]) /\
  tbl st !! GoInfo.DvcsImport (Package.Gx pkg)
  = Some ("gx/ipfs/" +:+ hash +:+ "/" +:+ Package.Name pkg) /\
  exists reldir built,
    buildRewriteMapping env FindPackageInDir depth pkg reldir false
                        (mkState ∅ (logged st0)) = Some (None, built) /\
    logged st = logged built /\
    forall k, k <> GoInfo.DvcsImport (Package.Gx pkg) ->
              tbl st !! k = tbl built !! k.
Proof.
  intros Hne Hslash Hfind Hrun.
  unfold postInstallHook in Hrun. cbv zeta in Hrun. rewrite Hfind in Hrun.
  rewrite Base_last in Hrun by done.
  rewrite bind_run in Hrun. unfold make_map at 1 in Hrun.
  rewrite bind_run in Hrun.
  match type of Hrun with
  | context [buildRewriteMapping _ _ _ _ ?d _ _] => set (reldir := d) in *
  end.
  destruct (buildRewriteMapping env FindPackageInDir depth pkg reldir false
                                (mkState ∅ (logged st0)))
    as [[[err|] built]|] eqn:Hbuild; [done| |done].
  injection Hrun as <- <-. split; [done|]. cbn [tbl logged].
  split; [by rewrite lookup_insert_eq|].
  exists reldir, built. split; [done|]. split; [done|].
  intros k Hk. by rewrite lookup_insert_ne.
Qed.

Lemma postInstallHook_own_import_witness :
  postInstallHook Fixture.env Installed.files 2 Installed.npkg Fixture.empty
  = Some (inr (Installed.lib, Installed.npkg +:+ "/lib"),
          mkState {[ "github.com/x/lib" := "gx/ipfs/QmL/lib" ]} []) /\
  buildRewriteMapping Fixture.env Installed.files 2 Installed.lib
                      Fixture.pkgdir false Fixture.empty
  = Some (None, mkState {[ "github.com/x/lib" := "gx/ipfs/QmD/fork" ]} []) /\
  tbl (mkState {[ "github.com/x/lib" := "gx/ipfs/QmL/lib" ]} [])
  !! GoInfo.DvcsImport (Package.Gx Installed.lib)
  = Some ("gx/ipfs/" +:+ "QmL" +:+ "/" +:+ Package.Name Installed.lib).
Proof.
  split; [reflexivity|]. split; [reflexivity|].
  refine (proj1 (proj2 (postInstallHook_own_import
            Fixture.env Installed.files 2 Fixture.pkgdir "QmL" Installed.lib
            Fixture.empty (Installed.lib, Installed.npkg +:+ "/lib")
            (mkState {[ "github.com/x/lib" := "gx/ipfs/QmL/lib" ]} [])
            _ _ _ _))).
  - discriminate.
  - simpl. intros [|[|[|[]]]]; discriminate.
  - reflexivity.
  - reflexivity.
Defined.

(** X19. Where the [post-install] hook looks for dependencies: for a
    package installed at [<root>/vendor/gx/ipfs<rest>], with [root] a
    clean absolute path in which [vendor/gx/ipfs] does not occur before,
    the dependencies are looked up in [<root>/vendor/gx/ipfs], whatever
    [rest] is; an error of the build is returned wrapped, and otherwise
    [doRewrite] is reached on [<npkg>/<name>]. *)
Theorem postInstallHook_vendored env FindPackageInDir depth
        root rest pkg st0 :
  clean_root root ->
  Contains (root +:+ "/vendor/gx/ipf") "vendor/gx/ipfs" = false ->
  FindPackageInDir Package.zero (root +:+ "/vendor/gx/ipfs" +:+ rest)
  = (pkg, None) ->
  postInstallHook env FindPackageInDir depth
                  (root +:+ "/vendor/gx/ipfs" +:+ rest) st0
  = match buildRewriteMapping env FindPackageInDir depth pkg
                              (root +:+ "/vendor/gx/ipfs") false
                              (mkState ∅ (logged st0)) with
    | None => None
    | Some (Some err, built) => Some (inl (BuildingFailed err), built)
    | Some (None, built) =>
        Some (inr (pkg, GoPath.Join [root +:+ "/vendor/gx/ipfs" +:+ rest;
                                     Package.Name pkg]),
              mkState (<[GoInfo.DvcsImport (Package.Gx pkg) :=
                           "gx/ipfs/" +:+
                           Base (root +:+ "/vendor/gx/ipfs" +:+ rest) +:+
                           "/" +:+ Package.Name pkg]> (tbl built))
                      (logged built))
    end.
Proof.
  intros Hroot Hfirst Hfind.
  unfold postInstallHook. cbv zeta. rewrite Hfind.
  assert (root +:+ "/vendor/gx/ipfs" +:+ rest
          = (root +:+ "/") +:+ ("vendor/gx/ipf" +:+ "s") +:+ rest) as Hsplit.
  { by rewrite !app_assoc. }
  assert (Contains (root +:+ "/vendor/gx/ipfs" +:+ rest) "vendor/gx/ipfs"
          = true) as ->.
  { clear. induction root as [|a root IH].
    - by rewrite app_nil_l.
    - rewrite app_cons. simpl. rewrite IH. apply orb_true_r. }
  replace (Split_first (root +:+ "/vendor/gx/ipfs" +:+ rest) "vendor/gx/ipfs")
    with (root +:+ "/").
  2:{ symmetry. rewrite Hsplit.
      apply (Split_first_before (root +:+ "/") "vendor/gx/ipf" "s" rest).
      by rewrite app_assoc. }
  rewrite (Join_trailing_slash root ["vendor"; "gx"; "ipfs"]); [|done|done|].
  2:{ repeat constructor; try discriminate;
        simpl; intuition discriminate. }
  change (GoStrings.Join ["vendor"; "gx"; "ipfs"] "/") with "vendor/gx/ipfs".
  change (root +:+ "/" +:+ "vendor/gx/ipfs") with (root +:+ "/vendor/gx/ipfs").
  rewrite bind_run. unfold make_map at 1. rewrite bind_run.
  by destruct (buildRewriteMapping _ _ _ _ _ _ _) as [[[err|] built]|].
Qed.

Lemma postInstallHook_vendored_witness :
  clean_root "/go/src/github.com/me/proj" /\
  postInstallHook Fixture.env Installed.files 2
                  ("/go/src/github.com/me/proj" +:+ "/vendor/gx/ipfs" +:+ "/QmL")
                  Fixture.empty
  = match buildRewriteMapping Fixture.env Installed.files 2 Installed.lib
                              ("/go/src/github.com/me/proj" +:+ "/vendor/gx/ipfs")
                              false (mkState ∅ (logged Fixture.empty)) with
    | None => None
    | Some (Some err, built) => Some (inl (BuildingFailed err), built)
    | Some (None, built) =>
        Some (inr (Installed.lib,
                   GoPath.Join ["/go/src/github.com/me/proj" +:+
                                "/vendor/gx/ipfs" +:+ "/QmL";
                                Package.Name Installed.lib]),
              mkState (<[GoInfo.DvcsImport (Package.Gx Installed.lib) :=
                           "gx/ipfs/" +:+
                           Base ("/go/src/github.com/me/proj" +:+
                                 "/vendor/gx/ipfs" +:+ "/QmL") +:+
                           "/" +:+ Package.Name Installed.lib]> (tbl built))
                      (logged built))
    end.
Proof.
  assert (clean_root "/go/src/github.com/me/proj") as Hroot.
  { exists ["go"; "src"; "github.com"; "me"; "proj"].
    split; [done|]. split; [|reflexivity].
    repeat constructor; try discriminate; simpl; intuition discriminate. }
  split; [exact Hroot|].
  apply (postInstallHook_vendored Fixture.env Installed.files 2
           "/go/src/github.com/me/proj" "/QmL" Installed.lib Fixture.empty).
  - exact Hroot.
  - reflexivity.
  - reflexivity.
Defined.

(** ** The [rewrite] command *)

Section Rewrite.

Variable env : Env.
Variable FindPackageInDir :
  Package.t -> string -> Package.t * option string.
Variable FindDep : Package.t -> string -> option Dependency.t.

Lemma loadDep_resolves dep pkgdir st child st' :
  loadDep env FindPackageInDir dep pkgdir st = Some (inl child, st') ->
  resolves env FindPackageInDir pkgdir dep child /\ tbl st' = tbl st.
Proof.
  intros Hload. split; [by exists st, st'|].
  by rewrite (loadDep_tbl _ _ _ _ _ _ _ Hload).
Qed.

(** The table after the loop over the arguments: what was there, and
    one entry for each argument whose package has a DVCS import. *)
Lemma rewrite_args_table pkg pkgdir undo args st st' :
  rewrite_args env FindPackageInDir FindDep pkg pkgdir undo args st
  = Some (None, st') ->
  (forall k v,
      tbl st' !! k = Some v ->
      tbl st !! k = Some v \/
      exists arg dep child,
        arg ∈ args /\ FindDep pkg arg = Some dep /\
        resolves env FindPackageInDir pkgdir dep child /\
        GoInfo.DvcsImport (Package.Gx child) <> EmptyString /\
        (k, v) = edge_entry undo dep child) /\
  (forall k, is_Some (tbl st !! k) -> is_Some (tbl st' !! k)) /\
  (forall arg,
      arg ∈ args ->
      exists dep child,
        FindDep pkg arg = Some dep /\
        resolves env FindPackageInDir pkgdir dep child /\
        (GoInfo.DvcsImport (Package.Gx child) <> EmptyString ->
         is_Some (tbl st' !! (edge_entry undo dep child).1))).
Proof.
  revert st. induction args as [|arg rest IH]; intros st Hrun.
  - injection Hrun as <-. split; [by left|]. split; [done|].
    intros arg Harg. by apply elem_of_nil in Harg.
  - cbn [rewrite_args] in Hrun.
    destruct (FindDep pkg arg) as [dep|] eqn:Hfind; [|done].
    rewrite bind_run in Hrun.
    destruct (loadDep env FindPackageInDir dep pkgdir st)
      as [[[child|err] st1]|] eqn:Hload; [|done|done].
    apply loadDep_resolves in Hload as [Hres Htbl].
    rewrite bind_run, addRewriteForDep_run in Hrun.
    case_bool_decide as Hdvcs.
    + apply IH in Hrun as (Hfrom & Hkept & Hall). rewrite Htbl in *.
      split; [|split; [done|]].
      * intros k v Hkv. destruct (Hfrom k v Hkv) as [?|(a & d & c & Ha & ?)];
          [by left|right].
        exists a, d, c. split; [by apply list_elem_of_further|done].
      * intros a [->|Ha]%elem_of_cons; [|by apply Hall].
        exists dep, child. split; [done|]. split; [done|]. by intros ?.
    + apply IH in Hrun as (Hfrom & Hkept & Hall). cbn [tbl] in *.
      rewrite Htbl in *.
      split; [|split].
      * intros k v Hkv. destruct (Hfrom k v Hkv) as [Hin|(a & d & c & Ha & ?)].
        -- destruct (decide ((edge_entry undo dep child).1 = k)) as [<-|Hk].
           ++ rewrite lookup_insert_eq in Hin. injection Hin as <-.
              right. exists arg, dep, child.
              split; [by apply list_elem_of_here|].
              do 3 (split; [done|]). by destruct (edge_entry undo dep child).
           ++ rewrite lookup_insert_ne in Hin by done. by left.
        -- right. exists a, d, c. split; [by apply list_elem_of_further|done].
      * intros k Hk. apply Hkept.
        destruct (decide ((edge_entry undo dep child).1 = k)) as [<-|Hne].
        -- by rewrite lookup_insert_eq.
        -- by rewrite lookup_insert_ne.
      * intros a [->|Ha]%elem_of_cons; [|by apply Hall].
        exists dep, child. split; [done|]. split; [done|]. intros _.
        apply Hkept. by rewrite lookup_insert_eq.
Qed.

End Rewrite.

(** X20. [rewrite] with arguments maps the named dependencies only: when
    the command gets past the build of the table, every argument names
    a dependency of the package for which [loadDep] returns a package,
    an entry of the table is the entry of such a dependency and of the
    package [loadDep] returns for it (one with a DVCS import), and each
    of them has its key in the table; their own dependencies are not
    visited.  Without [--dry-run] the command then calls [doRewrite] on
    [cwd]. *)
Theorem RewriteCommand_named_only env FindPackageInDir PkgFileName
        LoadPackageFile FindDep order tabwriter depth undo dry_run pdopt args
        pkg st0 out st :
  LoadPackageFile PkgFileName = inl pkg ->
  args <> [] ->
  RewriteCommand env FindPackageInDir PkgFileName LoadPackageFile FindDep
                 order tabwriter depth undo dry_run pdopt args st0
  = Some (out, st) ->
  (forall err, out <> Failed err) ->
  (forall k v,
      tbl st !! k = Some v ->
      exists arg dep child,
        arg ∈ args /\ FindDep pkg arg = Some dep /\
        resolves env FindPackageInDir (package_dir env pdopt) dep child /\
        GoInfo.DvcsImport (Package.Gx child) <> EmptyString /\
        (k, v) = edge_entry undo dep child) /\
  (forall arg,
      arg ∈ args ->
      exists dep child,
        FindDep pkg arg = Some dep /\
        resolves env FindPackageInDir (package_dir env pdopt) dep child /\
        (GoInfo.DvcsImport (Package.Gx child) <> EmptyString ->
         is_Some (tbl st !! (edge_entry undo dep child).1))) /\
  (dry_run = false -> out = Rewrites pkg (cwd env)).
Proof.
  intros Hload Hargs Hrun Hout.
  unfold RewriteCommand in Hrun. rewrite Hload in Hrun. cbv zeta in Hrun.
  rewrite bind_run, VLog_run, bind_run in Hrun. unfold make_map at 1 in Hrun.
  destruct args as [|arg rest]; [done|].
  rewrite bind_run in Hrun.
  replace (if negb (bool_decide (pdopt = EmptyString)) then pdopt
           else GoPath.Join [cwd env; vendorDir])
    with (package_dir env pdopt) in Hrun
    by (unfold package_dir; by case_bool_decide).
  destruct (rewrite_args _ _ _ _ _ _ _ _) as [[[err|] st1]|] eqn:Hloop;
    [injection Hrun as <- <-; by destruct (Hout err)| |done].
  apply rewrite_args_table in Hloop as (Hfrom & _ & Hall).
  rewrite bind_run, VLog_run in Hrun.
  assert (tbl st = tbl st1 /\ (dry_run = false -> out = Rewrites pkg (cwd env)))
    as [-> Hdry].
  { destruct dry_run.
    - unfold tabPrintSortedMap in Hrun. cbv zeta in Hrun.
      by injection Hrun as <- <-.
    - by injection Hrun as <- <-. }
  split; [|by split].
  intros k v Hkv. destruct (Hfrom k v Hkv) as [Hin|?]; [|done].
  cbn [tbl] in Hin. by rewrite lookup_empty in Hin.
Qed.

Lemma RewriteCommand_named_only_witness :
  RewriteCommand Fixture.env Installed.vendor "package.json"
                 Installed.descriptor Installed.FindDep Installed.order
                 Installed.two_columns
                 0 false false EmptyString ["y"] Fixture.empty
  = Some (Rewrites Installed.app (cwd Fixture.env),
          mkState {[ "github.com/x/y" := "gx/ipfs/QmY/y" ]} []) /\
  (forall k v,
      ({[ "github.com/x/y" := "gx/ipfs/QmY/y" ]} : gmap string string) !! k
      = Some v ->
      exists arg dep child,
        arg ∈ ["y"] /\ Installed.FindDep Installed.app arg = Some dep /\
        resolves Fixture.env Installed.vendor
                 (package_dir Fixture.env EmptyString) dep child /\
        GoInfo.DvcsImport (Package.Gx child) <> EmptyString /\
        (k, v) = edge_entry false dep child).
Proof.
  split; [reflexivity|].
  refine (proj1 (RewriteCommand_named_only
            Fixture.env Installed.vendor "package.json" Installed.descriptor
            Installed.FindDep Installed.order Installed.two_columns
            0 false false EmptyString ["y"]
            Installed.app Fixture.empty
            (Rewrites Installed.app (cwd Fixture.env))
            (mkState {[ "github.com/x/y" := "gx/ipfs/QmY/y" ]} [])
            _ _ _ _)).
  - reflexivity.
  - discriminate.
  - reflexivity.
  - discriminate.
Defined.

(** X21. The outcome of [rewrite] does not depend on the order in which
    Go iterates over the table: whatever the flags and the arguments,
    the error, the output of the dry run or the call of [doRewrite], and
    the table and the log, are the same for any two iteration orders. *)
Theorem RewriteCommand_order_irrelevant env FindPackageInDir PkgFileName
        LoadPackageFile FindDep order order' tabwriter depth undo dry_run
        pdopt args st0 :
  (forall m, order m ≡ₚ map_to_list m) ->
  (forall m, order' m ≡ₚ map_to_list m) ->
  RewriteCommand env FindPackageInDir PkgFileName LoadPackageFile FindDep
                 order tabwriter depth undo dry_run pdopt args st0
  = RewriteCommand env FindPackageInDir PkgFileName LoadPackageFile FindDep
                   order' tabwriter depth undo dry_run pdopt args st0.
Proof.
  intros Ho Ho'. unfold RewriteCommand.
  destruct (LoadPackageFile PkgFileName) as [pkg|err]; [|done]. cbv zeta.
  rewrite !bind_run, !VLog_run. rewrite !bind_run. unfold make_map.
  rewrite !bind_run.
  match goal with
  | |- context [match ?c ?s with _ => _ end] =>
      destruct (c s) as [[[err|] st1]|]; [done| |done]
  end.
  rewrite !bind_run, !VLog_run. destruct dry_run; [|done].
  unfold tabPrintSortedMap. cbv zeta.
  by rewrite (sort_Strings_Permutation (order _).*1 (order' _).*1)
    by by rewrite Ho, Ho'.
Qed.

Lemma RewriteCommand_order_irrelevant_witness :
  RewriteCommand Fixture.env Installed.vendor "package.json"
                 Installed.descriptor Installed.FindDep Installed.order
                 Installed.two_columns
                 3 false true EmptyString [] Fixture.empty
  = RewriteCommand Fixture.env Installed.vendor "package.json"
                   Installed.descriptor Installed.FindDep
                   (fun m => reverse (map_to_list m))
                   Installed.two_columns
                   3 false true EmptyString [] Fixture.empty.
Proof.
  apply (RewriteCommand_order_irrelevant
           Fixture.env Installed.vendor "package.json" Installed.descriptor
           Installed.FindDep Installed.order (fun m => reverse (map_to_list m))
           Installed.two_columns
           3 false true EmptyString [] Fixture.empty).
  - intros m. reflexivity.
  - intros m. apply reverse_Permutation.
Defined.

(** ** The prompt of the [post-import] hook *)

Section Prompt.

Variable ToLower : string -> string.

(** Lines that are no answer cost one reminder each. *)
Lemma yesNoPrompt_scan_skip def skipped more :
  Forall (fun text => ~ recognised (ToLower text)) skipped ->
  yesNoPrompt_scan ToLower def (skipped ++ more)
  = (replicate (length skipped) reminder
       ++ (yesNoPrompt_scan ToLower def more).1,
     (yesNoPrompt_scan ToLower def more).2).
Proof.
  induction 1 as [|text skipped Htext _ IH]; [by destruct (yesNoPrompt_scan _ _ _)|].
  cbn [app yesNoPrompt_scan length replicate]. cbv zeta.
  unfold recognised in Htext.
  rewrite !bool_decide_eq_false_2 by tauto.
  by rewrite IH.
Qed.

Lemma yesNoPrompt_scan_answer def text rest :
  recognised (ToLower text) ->
  yesNoPrompt_scan ToLower def (text :: rest)
  = ([], Some (if bool_decide (ToLower text = EmptyString) then def
               else bool_decide (ToLower text = "y"))).
Proof.
  intros Hrec. cbn [yesNoPrompt_scan]. cbv zeta.
  destruct Hrec as [-> | [-> | ->]]; reflexivity.
Qed.

End Prompt.

(** X22. [postImportHook] updates the imports only on a typed yes: for
    an imported package with a DVCS import, the lines that are not an
    answer (in lower case: empty, [y] or [n]) are skipped with one
    reminder each, and the first answer decides: [doUpdate] is called,
    from the DVCS import to [gx/ipfs/<hash>/<name>], exactly when it is
    [y]; an empty line means no.  When the input ends before an answer
    the hook panics.  A package without a DVCS import is not asked
    about. *)
Theorem postImportHook_first_answer env LoadPackage ToLower pkg npkgHash
        npkg skipped :
  LoadPackage npkgHash = inl npkg ->
  Forall (fun text => ~ recognised (ToLower text)) skipped ->
  let dvcs := GoInfo.DvcsImport (Package.Gx npkg) in
  let ask := "update imports of " +:+ dvcs +:+
             " to the newly imported package? [y/N] " in
  (dvcs = EmptyString ->
   forall lines,
     postImportHook env LoadPackage ToLower pkg npkgHash lines
     = ([], NoUpdate)) /\
  (dvcs <> EmptyString ->
   postImportHook env LoadPackage ToLower pkg npkgHash skipped
   = (ask :: replicate (length skipped) reminder, ImportPanicked) /\
   forall text rest,
     recognised (ToLower text) ->
     postImportHook env LoadPackage ToLower pkg npkgHash
                    (skipped ++ text :: rest)
     = (ask :: replicate (length skipped) reminder,
        if bool_decide (ToLower text = "y")
        then Updates (cwd env) dvcs
                     ("gx/ipfs/" +:+ npkgHash +:+ "/" +:+ Package.Name npkg)
        else NoUpdate)).
Proof.
  intros Hload Hskipped dvcs ask. split.
  - intros Hdvcs lines. unfold postImportHook. rewrite Hload. cbv zeta.
    fold dvcs. by rewrite bool_decide_eq_true_2.
  - intros Hdvcs.
    assert (forall more,
               yesNoPrompt ToLower
                 ("update imports of " +:+ dvcs +:+
                  " to the newly imported package?") false (skipped ++ more)
               = (ask :: replicate (length skipped) reminder
                      ++ (yesNoPrompt_scan ToLower false more).1,
                  (yesNoPrompt_scan ToLower false more).2)) as Hprompt.
    { intros more. unfold yesNoPrompt.
      rewrite yesNoPrompt_scan_skip by done. cbv zeta. cbv iota.
      f_equal. f_equal. unfold ask. by rewrite !app_assoc. }
    split.
    + unfold postImportHook. rewrite Hload. cbv zeta. fold dvcs.
      rewrite bool_decide_eq_false_2 by done. cbn [negb].
      rewrite <- (app_nil_r skipped) at 1. rewrite Hprompt.
      cbn [yesNoPrompt_scan fst snd]. by rewrite app_nil_r.
    + intros text rest Hrec.
      unfold postImportHook. rewrite Hload. cbv zeta. fold dvcs.
      rewrite bool_decide_eq_false_2 by done. cbn [negb].
      rewrite Hprompt, yesNoPrompt_scan_answer by done.
      cbn [fst snd]. rewrite app_nil_r.
      destruct Hrec as [-> | [-> | ->]]; reflexivity.
Qed.

Lemma postImportHook_first_answer_witness :
  postImportHook Fixture.env Installed.store (fun s => s) Installed.app "QmY"
                 ["maybe"; "yes"; "y"; "n"]
  = (["update imports of github.com/x/y to the newly imported package? [y/N] ";
      reminder; reminder],
     Updates (cwd Fixture.env) "github.com/x/y" "gx/ipfs/QmY/y").
Proof.
  refine (proj2 (proj2 (postImportHook_first_answer
            Fixture.env Installed.store (fun s => s) Installed.app "QmY"
            Installed.y ["maybe"; "yes"] _ _) _) "y" ["n"] _).
  - reflexivity.
  - repeat constructor; unfold recognised; intuition discriminate.
  - discriminate.
  - right. by left.
Defined.
